(** * The relay server of the macOS remote-access web app

    A shallow embedding of the socket.io relay in [src/webapp/index.js]
    (state variables, [sendToMac], and the handlers registered inside
    [io.on('connection', ...)]), together with the one handler of the
    earlier server file [src/unnamed/part_000] that differs in fan-out.

    The JavaScript module keeps its state in top-level [let] variables and
    talks to the outside through socket.io emits and [setTimeout].  Here a
    handler is a function in a small state-and-log monad: it reads and writes
    a [State] record holding those variables and appends the emits and timer
    registrations it performs, in program order.

    Beside the relay, the file embeds the whole earlier server, the quality
    scripts of its page, and two parts of the viewer page of [index.js]:
    the [statusUpdate] listener and the command panel. *)

From stdpp Require Import base numbers option list sets gmap strings.
From Stdlib Require Import ZArith Lia Ascii.
From Stdlib Require DecimalString DecimalNat.

Local Open Scope string_scope.
Local Open Scope Z_scope.
Local Open Scope list_scope.

(** ** Values on the wire *)

(** A socket.io connection id.  socket.io draws ids as fresh non-empty
    strings, so an id is always truthy and [macUserSocketId] is falsy exactly
    when it is [null]; ids are kept abstract as naturals. *)
Definition SocketId : Type := nat.
Bind Scope nat_scope with SocketId.

(** The result of [parseInt(_, 10)]: [NaN] or an integer.  (JavaScript
    rounds integers beyond 2^53 to the nearest double and distinguishes -0;
    neither matters to the relay, which only stores and forwards the value.) *)
Inductive JsNumber : Type :=
| NaN
| Num (z : Z).

(** The object literal sent on the [statusUpdate] channel:
    [{ type, status }] or [{ type, status, count }]. *)
Record StatusUpdate : Type := {
  type : string;
  status : string;
  count : option Z
}.

Inductive Payload : Type :=
| PStr (s : string)
| PNum (n : JsNumber)
| PStatus (u : StatusUpdate).

(** ** socket.io emits *)

Inductive Target : Type :=
| ToAll                          (* io.emit(...) *)
| ToSocket (s : SocketId)        (* socket.emit(...) *)
| ToOthers (s : SocketId)        (* socket.broadcast.emit(...) *)
| ToRoom (r : option SocketId).  (* io.to(r).emit(...) *)

Record Emit : Type := {
  target : Target;
  channel : string;
  payload : Payload
}.

(** Who receives an emit, given the connected sockets.  Every socket sits in
    the room named by its own id; [io.to(null)] names a room nobody is in, so
    that emit reaches no one. *)
Definition recipients (conns : gset SocketId) (t : Target) : gset SocketId :=
  match t with
  | ToAll => conns
  | ToSocket s => {[s]} ∩ conns
  | ToOthers s => conns ∖ {[s]}
  | ToRoom (Some r) => {[r]} ∩ conns
  | ToRoom None => ∅
  end.

(** ** Server state (index.js, lines 19-29) *)

(** One entry of [messageQueue]: the object [{ event, data }]. *)
Record Msg : Type := {
  event : string;
  data : Payload
}.

Record State : Type := {
  lastClipboardContent : string;
  lastEmoji : string;
  lastWord : string;
  lastQuality : JsNumber;
  lastFrameRate : JsNumber;
  lastHtmlSource : string;
  macUserSocketId : option SocketId;
  messageQueue : list Msg
}.

Definition initialHtmlSource : string :=
  String.append "<div style="
    (String (ascii_of_nat 34)
       (String.append
          "display:flex;align-items:center;justify-content:center;height:100%;font-family:sans-serif;color:#555;"
          (String (ascii_of_nat 34) ">Waiting for HTML content...</div>"))).

Definition initial_state : State := {|
  lastClipboardContent := "Welcome to the shared clipboard!";
  lastEmoji := String (ascii_of_nat 226) (String (ascii_of_nat 140) (String (ascii_of_nat 155) EmptyString));
  lastWord := "Ready";
  lastQuality := Num 1;
  lastFrameRate := Num 16;
  lastHtmlSource := initialHtmlSource;
  macUserSocketId := None;
  messageQueue := []
|}.

Definition set_lastClipboardContent (v : string) (st : State) : State :=
  {| lastClipboardContent := v; lastEmoji := lastEmoji st; lastWord := lastWord st;
     lastQuality := lastQuality st; lastFrameRate := lastFrameRate st;
     lastHtmlSource := lastHtmlSource st; macUserSocketId := macUserSocketId st;
     messageQueue := messageQueue st |}.

Definition set_lastEmoji (v : string) (st : State) : State :=
  {| lastClipboardContent := lastClipboardContent st; lastEmoji := v; lastWord := lastWord st;
     lastQuality := lastQuality st; lastFrameRate := lastFrameRate st;
     lastHtmlSource := lastHtmlSource st; macUserSocketId := macUserSocketId st;
     messageQueue := messageQueue st |}.

Definition set_lastWord (v : string) (st : State) : State :=
  {| lastClipboardContent := lastClipboardContent st; lastEmoji := lastEmoji st; lastWord := v;
     lastQuality := lastQuality st; lastFrameRate := lastFrameRate st;
     lastHtmlSource := lastHtmlSource st; macUserSocketId := macUserSocketId st;
     messageQueue := messageQueue st |}.

Definition set_lastQuality (v : JsNumber) (st : State) : State :=
  {| lastClipboardContent := lastClipboardContent st; lastEmoji := lastEmoji st; lastWord := lastWord st;
     lastQuality := v; lastFrameRate := lastFrameRate st;
     lastHtmlSource := lastHtmlSource st; macUserSocketId := macUserSocketId st;
     messageQueue := messageQueue st |}.

Definition set_lastFrameRate (v : JsNumber) (st : State) : State :=
  {| lastClipboardContent := lastClipboardContent st; lastEmoji := lastEmoji st; lastWord := lastWord st;
     lastQuality := lastQuality st; lastFrameRate := v;
     lastHtmlSource := lastHtmlSource st; macUserSocketId := macUserSocketId st;
     messageQueue := messageQueue st |}.

Definition set_lastHtmlSource (v : string) (st : State) : State :=
  {| lastClipboardContent := lastClipboardContent st; lastEmoji := lastEmoji st; lastWord := lastWord st;
     lastQuality := lastQuality st; lastFrameRate := lastFrameRate st;
     lastHtmlSource := v; macUserSocketId := macUserSocketId st;
     messageQueue := messageQueue st |}.

Definition set_macUserSocketId (v : option SocketId) (st : State) : State :=
  {| lastClipboardContent := lastClipboardContent st; lastEmoji := lastEmoji st; lastWord := lastWord st;
     lastQuality := lastQuality st; lastFrameRate := lastFrameRate st;
     lastHtmlSource := lastHtmlSource st; macUserSocketId := v;
     messageQueue := messageQueue st |}.

Definition set_messageQueue (v : list Msg) (st : State) : State :=
  {| lastClipboardContent := lastClipboardContent st; lastEmoji := lastEmoji st; lastWord := lastWord st;
     lastQuality := lastQuality st; lastFrameRate := lastFrameRate st;
     lastHtmlSource := lastHtmlSource st; macUserSocketId := macUserSocketId st;
     messageQueue := v |}.

(** ** The handler monad *)

(** What a handler does to the outside, in program order: an emit, or
    [setTimeout(callback, delay)].  The only callback the server ever passes
    to [setTimeout] is the queue-drain closure, which captures [msg] and
    [index]; the closure is kept as that pair. *)
Inductive Effect : Type :=
| DoEmit (e : Emit)
| SetTimeout (msg : Msg) (index : nat) (delay : Z).

Definition Handler (A : Type) : Type := State → A * State * list Effect.

#[global] Instance Handler_ret : MRet Handler :=
  λ A a st, (a, st, []).

#[global] Instance Handler_bind : MBind Handler :=
  λ A B f m st,
    let '(a, st1, log1) := m st in
    let '(b, st2, log2) := f a st1 in
    (b, st2, log1 ++ log2).

(** Read a variable. *)
Definition gets {A : Type} (f : State → A) : Handler A :=
  λ st, (f st, st, []).

(** Assign a variable. *)
Definition assign (f : State → State) : Handler unit :=
  λ st, (tt, f st, []).

Definition emit (t : Target) (ch : string) (p : Payload) : Handler unit :=
  λ st, (tt, st, [DoEmit {| target := t; channel := ch; payload := p |}]).

Definition setTimeout (msg : Msg) (index : nat) (delay : Z) : Handler unit :=
  λ st, (tt, st, [SetTimeout msg index delay]).

Definition io_emit : string → Payload → Handler unit := emit ToAll.
Definition socket_emit (socket : SocketId) : string → Payload → Handler unit :=
  emit (ToSocket socket).
Definition socket_broadcast_emit (socket : SocketId) : string → Payload → Handler unit :=
  emit (ToOthers socket).
Definition io_to_emit (room : option SocketId) : string → Payload → Handler unit :=
  emit (ToRoom room).

(** [array.forEach((x, index) => ...)] over the array as it stands when the
    loop starts. *)
Fixpoint forEach_from {A : Type} (index : nat) (l : list A)
    (f : A → nat → Handler unit) : Handler unit :=
  match l with
  | [] => mret tt
  | x :: rest => f x index ;; forEach_from (S index) rest f
  end.

Definition forEach {A : Type} (l : list A) (f : A → nat → Handler unit) : Handler unit :=
  forEach_from 0 l f.

(** The state and the log a handler leaves. *)
Definition exec {A : Type} (h : Handler A) (st : State) : State * list Effect :=
  ((h st).1.2, (h st).2).

(** ** [parseInt(string, 10)] *)

(** Payload strings are sequences of 8-bit code units.  The white space that
    [parseInt] skips is, in that range: TAB, LF, VT, FF, CR, SP and NBSP. *)
Definition is_white_space (c : ascii) : bool :=
  let n := nat_of_ascii c in
  ((9 <=? n) && (n <=? 13) || (n =? 32) || (n =? 160))%nat.

Definition is_digit (c : ascii) : bool :=
  let n := nat_of_ascii c in
  ((48 <=? n) && (n <=? 57))%nat.

Definition digit_value (c : ascii) : Z :=
  Z.of_nat (nat_of_ascii c) - 48.

Fixpoint skip_white_space (s : string) : string :=
  match s with
  | String c rest => if is_white_space c then skip_white_space rest else s
  | EmptyString => s
  end.

(** The longest prefix of decimal digits, read as a number onto [acc];
    [None] when that prefix is empty. *)
Fixpoint read_digits (s : string) (acc : option Z) : option Z :=
  match s with
  | String c rest =>
      if is_digit c
      then read_digits rest (Some (10 * default 0 acc + digit_value c))
      else acc
  | EmptyString => acc
  end.

Definition parseInt (input : string) : JsNumber :=
  let s := skip_white_space input in
  let '(sign, s) :=
    match s with
    | String "-"%char rest => (-1, rest)
    | String "+"%char rest => (1, rest)
    | _ => (1, s)
    end in
  match read_digits s None with
  | Some n => Num (sign * n)
  | None => NaN
  end.

(** ** The relay (index.js, lines 31-155) *)

(** JavaScript truthiness of [macUserSocketId]. *)
Definition truthy (id : option SocketId) : bool :=
  match id with
  | Some _ => true
  | None => false
  end.

Definition mac_status (s : string) : Payload :=
  PStatus {| type := "mac"; status := s; count := None |}.

Definition queue_status (s : string) (n : option Z) : Payload :=
  PStatus {| type := "queue"; status := s; count := n |}.

(** [messageQueue.length] *)
Definition messageQueue_length (st : State) : Z :=
  Z.of_nat (length (messageQueue st)).

(** [messageQueue.push(msg)] *)
Definition messageQueue_push (msg : Msg) (st : State) : State :=
  set_messageQueue (messageQueue st ++ [msg]) st.

(** index.js, lines 37-50. *)
Definition sendToMac (event : string) (data : Payload) : Handler unit :=
  mac ← gets macUserSocketId;
  len ← gets messageQueue_length;
  if negb (String.eqb event "wordToMac") || (truthy mac && (len =? 0))
  then io_to_emit mac event data
  else
    assign (messageQueue_push {| event := event; data := data |}) ;;
    len' ← gets messageQueue_length;
    io_emit "statusUpdate" (queue_status "queued" (Some len')).

(** The closure handed to [setTimeout] at index.js, lines 72-87.  The
    variables [macUserSocketId] and [messageQueue] are read when the timer
    fires; [msg] and [index] are the captured loop values. *)
Definition drain_callback (msg : Msg) (index : nat) : Handler unit :=
  mac ← gets macUserSocketId;
  io_to_emit mac (event msg) (data msg) ;;
  len ← gets messageQueue_length;
  io_emit "statusUpdate" (queue_status "queued" (Some (len - Z.of_nat index - 1))) ;;
  len' ← gets messageQueue_length;
  if Z.of_nat index =? len' - 1
  then
    assign (set_messageQueue []) ;;
    io_emit "statusUpdate" (queue_status "cleared" None)
  else mret tt.

(** index.js, lines 56-109. *)
Definition on_identify (socket : SocketId) (type : string) : Handler unit :=
  if String.eqb type "macos"
  then
    assign (set_macUserSocketId (Some socket)) ;;
    io_emit "statusUpdate" (mac_status "connected") ;;
    word ← gets lastWord;
    socket_emit socket "wordToMac" (PStr word) ;;
    quality ← gets lastQuality;
    socket_emit socket "qualityChange" (PNum quality) ;;
    frameRate ← gets lastFrameRate;
    socket_emit socket "frameRateChange" (PNum frameRate) ;;
    len ← gets messageQueue_length;
    if 0 <? len
    then
      queue ← gets messageQueue;
      forEach queue (λ msg index, setTimeout msg index (Z.of_nat index * 2500))
    else mret tt
  else
    clipboard ← gets lastClipboardContent;
    socket_emit socket "clipboardData" (PStr clipboard) ;;
    emoji ← gets lastEmoji;
    socket_emit socket "emojiToWeb" (PStr emoji) ;;
    html ← gets lastHtmlSource;
    socket_emit socket "renderHTML" (PStr html) ;;
    mac ← gets macUserSocketId;
    socket_emit socket "statusUpdate"
      (mac_status (if truthy mac then "connected" else "disconnected")) ;;
    len ← gets messageQueue_length;
    if 0 <? len
    then
      assign (set_messageQueue []) ;;
      len' ← gets messageQueue_length;
      socket_emit socket "statusUpdate" (queue_status "queued" (Some len'))
    else mret tt.

(** index.js, lines 111-113. *)
Definition on_screenData (socket : SocketId) (data : string) : Handler unit :=
  io_emit "screenData" (PStr data).

(** index.js, lines 115-118. *)
Definition on_webSourceCode (socket : SocketId) (source : string) : Handler unit :=
  assign (set_lastHtmlSource source) ;;
  io_emit "renderHTML" (PStr source).

(** index.js, lines 120-123. *)
Definition on_clipboardData (socket : SocketId) (content : string) : Handler unit :=
  assign (set_lastClipboardContent content) ;;
  socket_broadcast_emit socket "clipboardData" (PStr content).

(** index.js, lines 126-130. *)
Definition on_wordToMac (socket : SocketId) (word : string) : Handler unit :=
  assign (set_lastWord word) ;;
  sendToMac "wordToMac" (PStr word).

(** index.js, lines 132-135. *)
Definition on_qualityChange (socket : SocketId) (quality : string) : Handler unit :=
  assign (set_lastQuality (parseInt quality)) ;;
  q ← gets lastQuality;
  sendToMac "qualityChange" (PNum q).

(** index.js, lines 137-140. *)
Definition on_frameRateChange (socket : SocketId) (frameRate : string) : Handler unit :=
  assign (set_lastFrameRate (parseInt frameRate)) ;;
  f ← gets lastFrameRate;
  sendToMac "frameRateChange" (PNum f).

(** index.js, lines 142-145. *)
Definition on_emojiToWeb (socket : SocketId) (emoji : string) : Handler unit :=
  assign (set_lastEmoji emoji) ;;
  io_emit "emojiToWeb" (PStr emoji).

(** index.js, lines 147-154. *)
Definition on_disconnect (socket : SocketId) : Handler unit :=
  mac ← gets macUserSocketId;
  if bool_decide (Some socket = mac)
  then
    assign (set_macUserSocketId None) ;;
    io_emit "statusUpdate" (mac_status "disconnected")
  else mret tt.

(** The events a client can send, with their payloads.  Every payload is
    kept as the string the client sent; for the two numeric channels that is
    the string [parseInt] reads (it converts its argument to a string
    first). *)
Inductive Inbound : Type :=
| Identify (type : string)
| ScreenData (data : string)
| WebSourceCode (source : string)
| ClipboardData (content : string)
| WordToMac (word : string)
| QualityChange (quality : string)
| FrameRateChange (frameRate : string)
| EmojiToWeb (emoji : string).

(** The [socket.on(...)] registrations: which handler an event runs. *)
Definition dispatch (socket : SocketId) (e : Inbound) : Handler unit :=
  match e with
  | Identify type => on_identify socket type
  | ScreenData data => on_screenData socket data
  | WebSourceCode source => on_webSourceCode socket source
  | ClipboardData content => on_clipboardData socket content
  | WordToMac word => on_wordToMac socket word
  | QualityChange quality => on_qualityChange socket quality
  | FrameRateChange frameRate => on_frameRateChange socket frameRate
  | EmojiToWeb emoji => on_emojiToWeb socket emoji
  end.

(** The screen-frame handler of the earlier server file
    (src/unnamed/part_000, lines 55-58). *)
Module Legacy.

Definition on_screenData (socket : SocketId) (data : string) : Handler unit :=
  socket_broadcast_emit socket "screenData" (PStr data).

End Legacy.

(** ** The event loop *)

(** A pending [setTimeout]: when it is due, and the closure's captured
    [msg] and [index]. *)
Record Timer : Type := {
  due : Z;
  timer_msg : Msg;
  timer_index : nat
}.

(** The process: the module's variables, the sockets socket.io holds
    connected, the pending timers in firing order, and the clock (ms). *)
Record World : Type := {
  app : State;
  sockets : gset SocketId;
  timers : list Timer;
  now : Z
}.

Definition initial_world : World :=
  {| app := initial_state; sockets := ∅; timers := []; now := 0 |}.

(** Timers fire by due time, and in registration order among equal due
    times.  The delay is taken as written in the call (Node itself raises a
    delay of 0 to 1 ms and only accepts delays up to 2^31-1 ms). *)
Fixpoint add_timer (t : Timer) (pending : list Timer) : list Timer :=
  match pending with
  | [] => [t]
  | p :: rest => if due p <=? due t then p :: add_timer t rest else t :: pending
  end.

(** Carry out a handler's log at time [clock]: emits leave stamped with the
    time, timer registrations join the pending timers. *)
Fixpoint perform (clock : Z) (log : list Effect) (pending : list Timer)
    : list Timer * list (Z * Emit) :=
  match log with
  | [] => (pending, [])
  | DoEmit e :: rest =>
      let '(pending', out) := perform clock rest pending in
      (pending', (clock, e) :: out)
  | SetTimeout msg index delay :: rest =>
      perform clock rest
        (add_timer {| due := clock + delay; timer_msg := msg; timer_index := index |} pending)
  end.

Definition run_handler (h : Handler unit) (w : World) : World * list (Z * Emit) :=
  let '(st, log) := exec h (app w) in
  let '(pending, out) := perform (now w) log (timers w) in
  ({| app := st; sockets := sockets w; timers := pending; now := now w |}, out).

(** One turn of the loop. *)
Inductive Step : Type :=
| Connect (socket : SocketId)               (* a transport connects *)
| Receive (socket : SocketId) (e : Inbound) (* a client event arrives *)
| Close (socket : SocketId)                 (* a transport closes *)
| FireTimer                                 (* the earliest pending timer runs *)
| Elapse (ms : Z).                          (* time passes, nothing runs *)

(** On a close, socket.io takes the socket out of its rooms before the
    ['disconnect'] handler runs. *)
Definition step (w : World) (s : Step) : World * list (Z * Emit) :=
  match s with
  | Connect socket =>
      ({| app := app w; sockets := {[socket]} ∪ sockets w; timers := timers w; now := now w |}, [])
  | Receive socket e => run_handler (dispatch socket e) w
  | Close socket =>
      run_handler (on_disconnect socket)
        {| app := app w; sockets := sockets w ∖ {[socket]}; timers := timers w; now := now w |}
  | FireTimer =>
      match timers w with
      | [] => (w, [])
      | t :: rest =>
          run_handler (drain_callback (timer_msg t) (timer_index t))
            {| app := app w; sockets := sockets w; timers := rest; now := Z.max (now w) (due t) |}
      end
  | Elapse ms =>
      ({| app := app w; sockets := sockets w; timers := timers w; now := now w + Z.max 0 ms |}, [])
  end.

Fixpoint run (w : World) (trace : list Step) : World * list (Z * Emit) :=
  match trace with
  | [] => (w, [])
  | s :: rest =>
      let '(w1, out1) := step w s in
      let '(w2, out2) := run w1 rest in
      (w2, out1 ++ out2)
  end.

(** Let every pending timer run, with no client event in between. *)
Definition run_timers (w : World) : World * list (Z * Emit) :=
  run w (replicate (length (timers w)) FireTimer).

(** A world the server can be in: the initial one after some turns. *)
Definition reachable (w : World) : Prop :=
  ∃ trace, (run initial_world trace).1 = w.

(** * Specification-side definitions *)

Definition emit_of (t : Target) (ch : string) (p : Payload) : Emit :=
  {| target := t; channel := ch; payload := p |}.

(** The queue entry a text command becomes. *)
Definition word_msg (word : string) : Msg :=
  {| event := "wordToMac"; data := PStr word |}.

Definition is_word (msg : Msg) : Prop := ∃ word, msg = word_msg word.

(** Only text commands are ever queued or scheduled, and while the queue is
    non-empty its newest entry carries the stored last word. *)
Definition queue_inv (w : World) : Prop :=
  Forall is_word (messageQueue (app w)) ∧
  Forall (λ t, is_word (timer_msg t)) (timers w) ∧
  (messageQueue (app w) ≠ [] →
   last (messageQueue (app w)) = Some (word_msg (lastWord (app w)))).

(** The log of the scheduling loop at index.js, lines 71-88. *)
Fixpoint schedule_log (index : nat) (queue : list Msg) : list Effect :=
  match queue with
  | [] => []
  | msg :: rest => SetTimeout msg index (Z.of_nat index * 2500) :: schedule_log (S index) rest
  end.

Definition timer_ok (P : Msg → Prop) (e : Effect) : Prop :=
  match e with
  | DoEmit _ => True
  | SetTimeout msg _ _ => P msg
  end.

(** The timers the scheduling loop registers at time [t0] for a queue. *)
Fixpoint drain_timers (t0 : Z) (index : nat) (queue : list Msg) : list Timer :=
  match queue with
  | [] => []
  | msg :: rest =>
      {| due := t0 + Z.of_nat index * 2500; timer_msg := msg; timer_index := index |}
      :: drain_timers t0 (S index) rest
  end.

(** "Parseable as an integer": after optional white space and an optional
    sign, a decimal digit follows. *)
Definition starts_with_integer (s : string) : bool :=
  match skip_white_space s with
  | String c rest =>
      if bool_decide (c = "+"%char ∨ c = "-"%char)
      then match rest with
           | String d _ => is_digit d
           | EmptyString => false
           end
      else is_digit c
  | EmptyString => false
  end.

(** From the specification's words: the binding is the most recent
    connection to identify as device, unless that connection has closed
    since; with no such connection it is empty.  The trace is read from its
    newest turn backwards, collecting the sockets seen to close. *)
Fixpoint device_binding_back (newest_first : list Step) (closed : gset SocketId)
    : option SocketId :=
  match newest_first with
  | [] => None
  | Receive socket (Identify type) :: older =>
      if bool_decide (type = "macos")
      then (if bool_decide (socket ∈ closed) then None else Some socket)
      else device_binding_back older closed
  | Close socket :: older => device_binding_back older ({[socket]} ∪ closed)
  | _ :: older => device_binding_back older closed
  end.

Definition device_binding (trace : list Step) : option SocketId :=
  device_binding_back (reverse trace) ∅.

Definition hide_closed (closed : gset SocketId) (mac : option SocketId) : option SocketId :=
  match mac with
  | Some socket => if bool_decide (socket ∈ closed) then None else Some socket
  | None => None
  end.

(** From the specification's words: the latest value of a channel is the
    one set by the newest update in the trace, or the start-up value when
    the trace holds none. *)
Definition latest {A : Type} (update : Step → option A) (start : A) (trace : list Step) : A :=
  foldl (λ value s, default value (update s)) start trace.

Definition clipboard_update (s : Step) : option string :=
  match s with Receive _ (ClipboardData content) => Some content | _ => None end.

Definition emoji_update (s : Step) : option string :=
  match s with Receive _ (EmojiToWeb emoji) => Some emoji | _ => None end.

Definition html_update (s : Step) : option string :=
  match s with Receive _ (WebSourceCode source) => Some source | _ => None end.

Definition word_update (s : Step) : option string :=
  match s with Receive _ (WordToMac word) => Some word | _ => None end.

Definition quality_update (s : Step) : option JsNumber :=
  match s with Receive _ (QualityChange quality) => Some (parseInt quality) | _ => None end.

Definition frameRate_update (s : Step) : option JsNumber :=
  match s with Receive _ (FrameRateChange frameRate) => Some (parseInt frameRate) | _ => None end.

(** From the specification's words: the queued commands reach the device
    in enqueue order, the one at position [i] at [2500 * i] ms after the
    identification; each delivery is followed by a queue-depth status with
    the remaining count [N - 1 - i], and the last one also by the cleared
    status. *)
Fixpoint paced_delivery (t0 : Z) (device : SocketId) (N : nat) (i : nat)
    (words : list string) : list (Z * Emit) :=
  match words with
  | [] => []
  | word :: rest =>
      let t := t0 + 2500 * Z.of_nat i in
      (t, emit_of (ToRoom (Some device)) "wordToMac" (PStr word))
      :: (t, emit_of ToAll "statusUpdate"
                (queue_status "queued" (Some (Z.of_nat N - 1 - Z.of_nat i))))
      :: match rest with
         | [] => [(t, emit_of ToAll "statusUpdate" (queue_status "cleared" None))]
         | _ :: _ => []
         end
      ++ paced_delivery t0 device N (S i) rest
  end.

(** The turns that enqueue commands: one text-command event per command,
    each from its own sender. *)
Definition enqueue (cmds : list (SocketId * string)) : list Step :=
  (λ cmd, Receive cmd.1 (WordToMac cmd.2)) <$> cmds.

(** Whether an emit addressed to [t] reaches the connected socket [who]. *)
Definition reaches (who : SocketId) (t : Target) : bool :=
  match t with
  | ToAll => true
  | ToSocket s => bool_decide (s = who)
  | ToOthers s => bool_decide (s ≠ who)
  | ToRoom r => bool_decide (r = Some who)
  end.

(** The payloads that arrive at [who] on the text-command channel, in
    order. *)
Definition words_received (who : SocketId) (out : list (Z * Emit)) : list Payload :=
  omap (λ o : Z * Emit,
          if bool_decide (channel o.2 = "wordToMac") && reaches who (target o.2)
          then Some (payload o.2) else None) out.

(** Unfold a handler down to the state and log it yields. *)
Ltac handler_unfold :=
  cbv [step run_handler exec dispatch
       on_identify on_screenData on_webSourceCode on_clipboardData on_wordToMac
       on_qualityChange on_frameRateChange on_emojiToWeb on_disconnect
       Legacy.on_screenData sendToMac drain_callback
       io_emit socket_emit socket_broadcast_emit io_to_emit emit setTimeout gets assign
       mbind mret Handler_bind Handler_ret].


(** * Further components: the earlier server and the pages *)

(** ** Numbers as text, and in the page scripts *)

(** The decimal numeral of a natural number, as JavaScript prints an
    integer: no leading zeros, ["0"] for zero. *)
Definition decimal (n : nat) : string :=
  DecimalString.NilEmpty.string_of_uint (Nat.to_uint n).

(** [String(x)] for the numbers the model holds (JavaScript switches to
    exponent notation from 10^21 on; the numbers here stay far below). *)
Definition Number_toString (x : JsNumber) : string :=
  match x with
  | NaN => "NaN"
  | Num z => if z <? 0 then String "-" (decimal (Z.to_nat (- z))) else decimal (Z.to_nat z)
  end.

(** Arithmetic and comparison on the numbers the model holds: [NaN]
    spreads through arithmetic, every ordered comparison with [NaN] is
    false, and [NaN !== NaN] is true. *)
Definition js_add (a b : JsNumber) : JsNumber :=
  match a, b with Num x, Num y => Num (x + y) | _, _ => NaN end.

Definition js_sub (a b : JsNumber) : JsNumber :=
  match a, b with Num x, Num y => Num (x - y) | _, _ => NaN end.

Definition js_lt (a b : JsNumber) : bool :=
  match a, b with Num x, Num y => x <? y | _, _ => false end.

Definition js_gt (a b : JsNumber) : bool := js_lt b a.

Definition js_strict_ne (a b : JsNumber) : bool :=
  match a, b with Num x, Num y => negb (x =? y) | _, _ => true end.


(** [Math.round], [Math.min] and [Math.max] on integers and [NaN]. *)
Definition Math_round (a : JsNumber) : JsNumber := a.

Definition Math_min (a b : JsNumber) : JsNumber :=
  match a, b with Num x, Num y => Num (Z.min x y) | _, _ => NaN end.

Definition Math_max (a b : JsNumber) : JsNumber :=
  match a, b with Num x, Num y => Num (Z.max x y) | _, _ => NaN end.

(** ** The earlier server (src/unnamed/part_000, lines 22-106)

    It keeps the same variables except [lastHtmlSource] and [messageQueue],
    which it does not have: the two fields stay as they are.  It registers
    no handler for [webSourceCode], so that event does nothing, and it sets
    no timer. *)
Module LegacyServer.

Definition initial_state : State := {|
  lastClipboardContent := "Welcome to the shared clipboard!";
  lastEmoji := "...";
  lastWord := "Ready";
  lastQuality := Num 75;
  lastFrameRate := Num 30;
  lastHtmlSource := EmptyString;
  macUserSocketId := None;
  messageQueue := []
|}.

(** part_000, lines 35-52. *)
Definition on_identify (socket : SocketId) (type : string) : Handler unit :=
  if String.eqb type "macos"
  then
    assign (set_macUserSocketId (Some socket)) ;;
    io_emit "statusUpdate" (mac_status "connected") ;;
    word ← gets lastWord;
    socket_emit socket "wordToMac" (PStr word) ;;
    quality ← gets lastQuality;
    socket_emit socket "qualityChange" (PNum quality) ;;
    frameRate ← gets lastFrameRate;
    socket_emit socket "frameRateChange" (PNum frameRate)
  else
    clipboard ← gets lastClipboardContent;
    socket_emit socket "clipboardData" (PStr clipboard) ;;
    emoji ← gets lastEmoji;
    socket_emit socket "emojiToWeb" (PStr emoji) ;;
    mac ← gets macUserSocketId;
    socket_emit socket "statusUpdate"
      (mac_status (if truthy mac then "connected" else "disconnected")).

(** part_000, lines 61-64. *)
Definition on_clipboardData (socket : SocketId) (content : string) : Handler unit :=
  assign (set_lastClipboardContent content) ;;
  socket_broadcast_emit socket "clipboardData" (PStr content).

(** part_000, lines 67-72. *)
Definition on_wordToMac (socket : SocketId) (word : string) : Handler unit :=
  assign (set_lastWord word) ;;
  mac ← gets macUserSocketId;
  if truthy mac then io_to_emit mac "wordToMac" (PStr word) else mret tt.

(** part_000, lines 75-80. *)
Definition on_qualityChange (socket : SocketId) (quality : string) : Handler unit :=
  assign (set_lastQuality (parseInt quality)) ;;
  mac ← gets macUserSocketId;
  if truthy mac
  then q ← gets lastQuality; io_to_emit mac "qualityChange" (PNum q)
  else mret tt.

(** part_000, lines 83-89. *)
Definition on_frameRateChange (socket : SocketId) (frameRate : string) : Handler unit :=
  assign (set_lastFrameRate (parseInt frameRate)) ;;
  mac ← gets macUserSocketId;
  if truthy mac
  then f ← gets lastFrameRate; io_to_emit mac "frameRateChange" (PNum f)
  else mret tt.

(** part_000, lines 92-95. *)
Definition on_emojiToWeb (socket : SocketId) (emoji : string) : Handler unit :=
  assign (set_lastEmoji emoji) ;;
  io_emit "emojiToWeb" (PStr emoji).

(** part_000, lines 98-105. *)
Definition on_disconnect (socket : SocketId) : Handler unit :=
  mac ← gets macUserSocketId;
  if bool_decide (Some socket = mac)
  then
    assign (set_macUserSocketId None) ;;
    io_emit "statusUpdate" (mac_status "disconnected")
  else mret tt.

Definition dispatch (socket : SocketId) (e : Inbound) : Handler unit :=
  match e with
  | Identify type => on_identify socket type
  | ScreenData data => Legacy.on_screenData socket data
  | WebSourceCode _ => mret tt
  | ClipboardData content => on_clipboardData socket content
  | WordToMac word => on_wordToMac socket word
  | QualityChange quality => on_qualityChange socket quality
  | FrameRateChange frameRate => on_frameRateChange socket frameRate
  | EmojiToWeb emoji => on_emojiToWeb socket emoji
  end.

Definition step (w : World) (s : Step) : World * list (Z * Emit) :=
  match s with
  | Connect socket =>
      ({| app := app w; sockets := {[socket]} ∪ sockets w; timers := timers w; now := now w |}, [])
  | Receive socket e => run_handler (dispatch socket e) w
  | Close socket =>
      run_handler (on_disconnect socket)
        {| app := app w; sockets := sockets w ∖ {[socket]}; timers := timers w; now := now w |}
  | FireTimer => (w, [])
  | Elapse ms =>
      ({| app := app w; sockets := sockets w; timers := timers w; now := now w + Z.max 0 ms |}, [])
  end.

Fixpoint run (w : World) (trace : list Step) : World * list (Z * Emit) :=
  match trace with
  | [] => (w, [])
  | s :: rest =>
      let '(w1, out1) := step w s in
      let '(w2, out2) := run w1 rest in
      (w2, out1 ++ out2)
  end.

Definition initial_world : World :=
  {| app := initial_state; sockets := ∅; timers := []; now := 0 |}.

End LegacyServer.

(** ** The viewer page of the earlier server: quality control
    (src/unnamed/part_000, lines 221-329)

    The page's variables and the properties of the page elements that the
    quality logic reads and writes.  Measuring the frame rate
    ([frameCount], [lastFpsCheckTime], [performance.now()]) is left to the
    caller of [tick], which passes the rounded rate. *)
Module LegacyPage.

Record Page : Type := {
  isAutoMode : bool;
  qualitySlider_value : string;
  qualitySlider_disabled : bool;
  frameRateSlider_value : string;
  frameRateSlider_disabled : bool;
  qualityValue_textContent : string;
  frameRateValue_textContent : string;
  fpsCounter_textContent : string;
  autoQualityBtn_active : bool
}.

Definition set_isAutoMode (v : bool) (p : Page) : Page :=
  {| isAutoMode := v; qualitySlider_value := qualitySlider_value p;
     qualitySlider_disabled := qualitySlider_disabled p;
     frameRateSlider_value := frameRateSlider_value p;
     frameRateSlider_disabled := frameRateSlider_disabled p;
     qualityValue_textContent := qualityValue_textContent p;
     frameRateValue_textContent := frameRateValue_textContent p;
     fpsCounter_textContent := fpsCounter_textContent p;
     autoQualityBtn_active := autoQualityBtn_active p |}.

Definition set_qualitySlider_value (v : string) (p : Page) : Page :=
  {| isAutoMode := isAutoMode p; qualitySlider_value := v;
     qualitySlider_disabled := qualitySlider_disabled p;
     frameRateSlider_value := frameRateSlider_value p;
     frameRateSlider_disabled := frameRateSlider_disabled p;
     qualityValue_textContent := qualityValue_textContent p;
     frameRateValue_textContent := frameRateValue_textContent p;
     fpsCounter_textContent := fpsCounter_textContent p;
     autoQualityBtn_active := autoQualityBtn_active p |}.

Definition set_frameRateSlider_value (v : string) (p : Page) : Page :=
  {| isAutoMode := isAutoMode p; qualitySlider_value := qualitySlider_value p;
     qualitySlider_disabled := qualitySlider_disabled p;
     frameRateSlider_value := v;
     frameRateSlider_disabled := frameRateSlider_disabled p;
     qualityValue_textContent := qualityValue_textContent p;
     frameRateValue_textContent := frameRateValue_textContent p;
     fpsCounter_textContent := fpsCounter_textContent p;
     autoQualityBtn_active := autoQualityBtn_active p |}.

Definition set_disabled (v : bool) (p : Page) : Page :=
  {| isAutoMode := isAutoMode p; qualitySlider_value := qualitySlider_value p;
     qualitySlider_disabled := v;
     frameRateSlider_value := frameRateSlider_value p;
     frameRateSlider_disabled := v;
     qualityValue_textContent := qualityValue_textContent p;
     frameRateValue_textContent := frameRateValue_textContent p;
     fpsCounter_textContent := fpsCounter_textContent p;
     autoQualityBtn_active := autoQualityBtn_active p |}.

Definition set_qualityValue_textContent (v : string) (p : Page) : Page :=
  {| isAutoMode := isAutoMode p; qualitySlider_value := qualitySlider_value p;
     qualitySlider_disabled := qualitySlider_disabled p;
     frameRateSlider_value := frameRateSlider_value p;
     frameRateSlider_disabled := frameRateSlider_disabled p;
     qualityValue_textContent := v;
     frameRateValue_textContent := frameRateValue_textContent p;
     fpsCounter_textContent := fpsCounter_textContent p;
     autoQualityBtn_active := autoQualityBtn_active p |}.

Definition set_frameRateValue_textContent (v : string) (p : Page) : Page :=
  {| isAutoMode := isAutoMode p; qualitySlider_value := qualitySlider_value p;
     qualitySlider_disabled := qualitySlider_disabled p;
     frameRateSlider_value := frameRateSlider_value p;
     frameRateSlider_disabled := frameRateSlider_disabled p;
     qualityValue_textContent := qualityValue_textContent p;
     frameRateValue_textContent := v;
     fpsCounter_textContent := fpsCounter_textContent p;
     autoQualityBtn_active := autoQualityBtn_active p |}.

Definition set_fpsCounter_textContent (v : string) (p : Page) : Page :=
  {| isAutoMode := isAutoMode p; qualitySlider_value := qualitySlider_value p;
     qualitySlider_disabled := qualitySlider_disabled p;
     frameRateSlider_value := frameRateSlider_value p;
     frameRateSlider_disabled := frameRateSlider_disabled p;
     qualityValue_textContent := qualityValue_textContent p;
     frameRateValue_textContent := frameRateValue_textContent p;
     fpsCounter_textContent := v;
     autoQualityBtn_active := autoQualityBtn_active p |}.

Definition set_autoQualityBtn_active (v : bool) (p : Page) : Page :=
  {| isAutoMode := isAutoMode p; qualitySlider_value := qualitySlider_value p;
     qualitySlider_disabled := qualitySlider_disabled p;
     frameRateSlider_value := frameRateSlider_value p;
     frameRateSlider_disabled := frameRateSlider_disabled p;
     qualityValue_textContent := qualityValue_textContent p;
     frameRateValue_textContent := frameRateValue_textContent p;
     fpsCounter_textContent := fpsCounter_textContent p;
     autoQualityBtn_active := v |}.

(** The page as it is loaded (part_000, lines 151, 168-178 and 221). *)
Definition initial_page : Page := {|
  isAutoMode := false;
  qualitySlider_value := "75";
  qualitySlider_disabled := false;
  frameRateSlider_value := "10";
  frameRateSlider_disabled := false;
  qualityValue_textContent := "75";
  frameRateValue_textContent := "10";
  fpsCounter_textContent := "--";
  autoQualityBtn_active := false
|}.

Section Scripts.

(** What [qualitySlider.value] reads after the script assigns it a number.
    The element is a range input with bounds 1 and 100 (part_000, line
    168): for an integer within them that is its numeral. *)
Variable range_holds : JsNumber → string.

(** part_000, lines 226-231.  What a script hands to [socket.emit] is kept
    as the event the server receives; a number is kept as its string, which
    is what the server's [parseInt] reads. *)
Definition on_connect (p : Page) : Page * list Inbound :=
  (p, [Identify "web";
       QualityChange (qualitySlider_value p);
       FrameRateChange (frameRateSlider_value p)]).

(** part_000, lines 268-273. *)
Definition setQuality (newQuality : JsNumber) (p : Page) : Page * list Inbound :=
  let q := Math_max (Num 1) (Math_min (Num 100) (Math_round newQuality)) in
  let p := set_qualitySlider_value (range_holds q) p in
  let p := set_qualityValue_textContent (Number_toString q) p in
  (p, [QualityChange (Number_toString q)]).

(** part_000, lines 276-280: the slider's [input] and [change] listeners. *)
Definition on_quality_input (p : Page) : Page :=
  let p := set_qualityValue_textContent (qualitySlider_value p) p in
  if isAutoMode p
  then set_autoQualityBtn_active false (set_isAutoMode false p)
  else p.

Definition on_quality_change (p : Page) : Page * list Inbound :=
  (p, [QualityChange (qualitySlider_value p)]).

(** part_000, lines 283-287. *)
Definition on_frameRate_input (p : Page) : Page :=
  let p := set_frameRateValue_textContent (frameRateSlider_value p) p in
  if isAutoMode p
  then set_autoQualityBtn_active false (set_isAutoMode false p)
  else p.

Definition on_frameRate_change (p : Page) : Page * list Inbound :=
  (p, [FrameRateChange (frameRateSlider_value p)]).

(** part_000, lines 290-296. *)
Definition on_auto_click (p : Page) : Page :=
  let p := set_isAutoMode (negb (isAutoMode p)) p in
  let p := set_autoQualityBtn_active (isAutoMode p) p in
  set_disabled (isAutoMode p) p.

(** part_000, lines 299-329, with [fps] standing for
    [Math.round(frameCount / delta)]. *)
Definition tick (fps : JsNumber) (p : Page) : Page * list Inbound :=
  let p := set_fpsCounter_textContent (Number_toString fps) p in
  if isAutoMode p
  then
    let currentQuality := parseInt (qualitySlider_value p) in
    let targetFps := parseInt (frameRateSlider_value p) in
    let minFpsTarget := js_sub targetFps (Num 5) in
    let newQuality :=
      if js_lt fps minFpsTarget && js_gt currentQuality (Num 1)
      then js_sub currentQuality (Num 5)
      else if js_gt fps (js_add targetFps (Num 2)) && js_lt currentQuality (Num 100)
      then js_add currentQuality (Num 2)
      else currentQuality in
    if js_strict_ne newQuality currentQuality
    then setQuality newQuality p
    else (p, [])
  else (p, []).

(** What happens on the page.  A slide is the user moving an enabled
    slider: the browser stores the numeral of the chosen position and fires
    [input], then [change]; a disabled slider does not move. *)
Inductive Action : Type :=
| Connected
| Tick (fps : JsNumber)
| ClickAuto
| SlideQuality (position : nat)
| SlideFrameRate (position : nat).

Definition act (a : Action) (p : Page) : Page * list Inbound :=
  match a with
  | Connected => on_connect p
  | Tick fps => tick fps p
  | ClickAuto => (on_auto_click p, [])
  | SlideQuality position =>
      if qualitySlider_disabled p then (p, [])
      else on_quality_change (on_quality_input (set_qualitySlider_value (decimal position) p))
  | SlideFrameRate position =>
      if frameRateSlider_disabled p then (p, [])
      else on_frameRate_change (on_frameRate_input (set_frameRateSlider_value (decimal position) p))
  end.

(** The page and the server together: each event the page emits reaches
    the server, in order, as coming from the page's socket. *)
Definition deliver (socket : SocketId) (events : list Inbound) (w : World) : World :=
  (LegacyServer.run w (Receive socket <$> events)).1.

Arguments deliver : simpl never.

Fixpoint session (socket : SocketId) (actions : list Action) (p : Page) (w : World)
    : Page * World :=
  match actions with
  | [] => (p, w)
  | a :: rest =>
      let '(p', events) := act a p in
      session socket rest p' (deliver socket events w)
  end.

(** The quality slider shows a position between 1 and 100, the frame-rate
    slider one between 1 and 30, and the server has stored both. *)
Definition in_sync (p : Page) (w : World) : Prop :=
  ∃ c f : nat,
    (1 ≤ c ≤ 100)%nat ∧ (1 ≤ f ≤ 30)%nat ∧
    qualitySlider_value p = decimal c ∧
    frameRateSlider_value p = decimal f ∧
    lastQuality (app w) = Num (Z.of_nat c) ∧
    lastFrameRate (app w) = Num (Z.of_nat f).

(** Both sliders are disabled, and the button is lit, exactly in auto mode. *)
Definition locked (p : Page) : Prop :=
  qualitySlider_disabled p = isAutoMode p ∧
  frameRateSlider_disabled p = isAutoMode p ∧
  autoQualityBtn_active p = isAutoMode p.

Definition is_click (a : Action) : bool :=
  match a with ClickAuto => true | _ => false end.

Fixpoint clicks (actions : list Action) : nat :=
  match actions with
  | [] => 0
  | a :: rest => (if is_click a then 1 else 0) + clicks rest
  end.

(** A slider is only slid to positions it has (part_000, lines 168 and
    173). *)
Definition within_slider (a : Action) : Prop :=
  match a with
  | SlideQuality position => (1 ≤ position ≤ 100)%nat
  | SlideFrameRate position => (1 ≤ position ≤ 30)%nat
  | _ => True
  end.

End Scripts.

End LegacyPage.

(** ** The viewer page: status displays (src/webapp/index.js, lines 346-366)

    The [statusUpdate] listener of the dashboard page, on the properties of
    the page elements it writes: the classes [status-red] and
    [status-green] of [macStatus], the class [hidden] of [queueStatus], and
    the texts. *)
Module ViewerPage.

Record Page : Type := {
  macStatus_red : bool;
  macStatus_green : bool;
  macStatusText_textContent : string;
  liveScreenFeed_src : string;
  queueStatus_textContent : string;
  queueStatus_hidden : bool
}.

(** The page as it is loaded (index.js, lines 199-201 and 212). *)
Definition initial_page : Page := {|
  macStatus_red := true;
  macStatus_green := false;
  macStatusText_textContent := "Disconnected";
  liveScreenFeed_src :=
    "https://placehold.co/1920x1080/000000/334155?text=Waiting+for+macOS+Stream...";
  queueStatus_textContent := EmptyString;
  queueStatus_hidden := true
|}.

Definition set_queueStatus_hidden (v : bool) (p : Page) : Page :=
  {| macStatus_red := macStatus_red p; macStatus_green := macStatus_green p;
     macStatusText_textContent := macStatusText_textContent p;
     liveScreenFeed_src := liveScreenFeed_src p;
     queueStatus_textContent := queueStatus_textContent p;
     queueStatus_hidden := v |}.

Definition set_queueStatus_textContent (v : string) (p : Page) : Page :=
  {| macStatus_red := macStatus_red p; macStatus_green := macStatus_green p;
     macStatusText_textContent := macStatusText_textContent p;
     liveScreenFeed_src := liveScreenFeed_src p;
     queueStatus_textContent := v;
     queueStatus_hidden := queueStatus_hidden p |}.

Definition set_liveScreenFeed_src (v : string) (p : Page) : Page :=
  {| macStatus_red := macStatus_red p; macStatus_green := macStatus_green p;
     macStatusText_textContent := macStatusText_textContent p;
     liveScreenFeed_src := v;
     queueStatus_textContent := queueStatus_textContent p;
     queueStatus_hidden := queueStatus_hidden p |}.

Definition set_macStatus (red green : bool) (text : string) (p : Page) : Page :=
  {| macStatus_red := red; macStatus_green := green;
     macStatusText_textContent := text;
     liveScreenFeed_src := liveScreenFeed_src p;
     queueStatus_textContent := queueStatus_textContent p;
     queueStatus_hidden := queueStatus_hidden p |}.

(** [data.count > 0]: false when the object has no [count]. *)
Definition count_positive (data : StatusUpdate) : bool :=
  match count data with Some n => 0 <? n | None => false end.

(** The template literal [(${data.count} Queued)]. *)
Definition queued_text (n : option Z) : string :=
  String.append "("
    (String.append (match n with Some z => Number_toString (Num z) | None => "undefined" end)
                   " Queued)").

(** index.js, lines 346-366. *)
Definition on_statusUpdate (data : StatusUpdate) (p : Page) : Page :=
  if String.eqb (type data) "mac"
  then
    let isConnected := String.eqb (status data) "connected" in
    let p := set_macStatus (negb isConnected) isConnected
               (if isConnected then "macOS App Connected"
                else "Disconnected. Messages will be queued.") p in
    if negb isConnected
    then set_liveScreenFeed_src
           "https://placehold.co/1920x1080/000000/334155?text=macOS+App+Disconnected" p
    else set_queueStatus_hidden true p
  else if String.eqb (type data) "queue"
  then
    if String.eqb (status data) "queued" && count_positive data
    then set_queueStatus_hidden false (set_queueStatus_textContent (queued_text (count data)) p)
    else if String.eqb (status data) "cleared"
    then set_queueStatus_hidden true p
    else p
  else p.

(** The status objects that arrive at the connected socket [who], in
    order, and the page after its listener has handled them. *)
Definition statusUpdates_received (who : SocketId) (out : list (Z * Emit)) : list StatusUpdate :=
  omap (λ o : Z * Emit,
          if bool_decide (channel o.2 = "statusUpdate") && reaches who (target o.2)
          then match payload o.2 with PStatus u => Some u | _ => None end
          else None) out.

Definition watch (who : SocketId) (out : list (Z * Emit)) (p : Page) : Page :=
  foldl (λ p u, on_statusUpdate u p) p (statusUpdates_received who out).

(** The badge shows [n] queued commands. *)
Definition badge_shows (n : nat) (p : Page) : Prop :=
  queueStatus_hidden p = false ∧
  queueStatus_textContent p = String.append "(" (String.append (decimal n) " Queued)").

End ViewerPage.

(** ** The viewer page: the command panel (src/webapp/index.js, lines 386-416)

    The click listener of the word buttons and [sendWord], on the values of
    the two inputs they read and write.  [numberInput] is a number input:
    the numeral of an integer assigned to it is kept as it is. *)
Module CommandPanel.








End CommandPanel.

(** * Further specification-side definitions *)

(** What the pending timers of a drain put out when they fire, from index
    [i] on, while the queue holds [len] entries and [room] is the bound
    device (or none): the timer whose index is [len - 1] empties the queue,
    and the timers after it see an empty queue. *)
Fixpoint fired_log (t0 : Z) (room : option SocketId) (len : nat) (i : nat)
    (words : list string) : list (Z * Emit) :=
  match words with
  | [] => []
  | word :: rest =>
      let t := t0 + 2500 * Z.of_nat i in
      (t, emit_of (ToRoom room) "wordToMac" (PStr word))
      :: (t, emit_of ToAll "statusUpdate"
                (queue_status "queued" (Some (Z.of_nat len - Z.of_nat i - 1))))
      :: (if bool_decide (S i = len)
          then (t, emit_of ToAll "statusUpdate" (queue_status "cleared" None))
               :: fired_log t0 room 0 (S i) rest
          else fired_log t0 room len (S i) rest)
  end.

(** Whether one of the timers with indices [i .. i + n - 1] is the one
    that empties a queue of [len] entries. *)
Definition clears (len i n : nat) : bool :=
  bool_decide (i < len ≤ i + n)%nat.

(** The world [k] timer turns into a drain: commands queued with no device
    bound, the device identified, and the first [k] timers fired. *)
Definition drain_started (w : World) (cmds : list (SocketId * string))
    (device : SocketId) (k : nat) : World :=
  (run (step (run w (enqueue cmds)).1 (Receive device (Identify "macos"))).1
       (replicate k FireTimer)).1.

(** The counts carried by the queue-depth statuses of a log, in order. *)
Definition queue_counts (out : list (Z * Emit)) : list Z :=
  omap (λ o : Z * Emit,
          match payload o.2 with
          | PStatus u =>
              if bool_decide (type u = "queue" ∧ status u = "queued") then count u else None
          | _ => None
          end) out.

(** Whether a log holds the queue-cleared status. *)
Definition is_cleared (p : Payload) : bool :=
  match p with
  | PStatus u => String.eqb (type u) "queue" && String.eqb (status u) "cleared"
  | _ => false
  end.

Definition has_cleared (out : list (Z * Emit)) : bool :=
  existsb (λ o : Z * Emit, is_cleared (payload o.2)) out.

(** What any list of pending drain timers puts out when they fire in
    order, with [room] the bound device (or none), [len] the queue length
    and [clock] the time before the first fires; and the queue length they
    leave. *)
Fixpoint timers_log (room : option SocketId) (len : nat) (clock : Z) (pending : list Timer)
    : list (Z * Emit) :=
  match pending with
  | [] => []
  | t :: rest =>
      let c := Z.max clock (due t) in
      (c, emit_of (ToRoom room) (event (timer_msg t)) (data (timer_msg t)))
      :: (c, emit_of ToAll "statusUpdate"
                (queue_status "queued" (Some (Z.of_nat len - Z.of_nat (timer_index t) - 1))))
      :: (if bool_decide (S (timer_index t) = len)
          then (c, emit_of ToAll "statusUpdate" (queue_status "cleared" None))
               :: timers_log room 0 c rest
          else timers_log room len c rest)
  end.

Fixpoint timers_leave (len : nat) (pending : list Timer) : nat :=
  match pending with
  | [] => len
  | t :: rest => timers_leave (if bool_decide (S (timer_index t) = len) then 0%nat else len) rest
  end.

(** Each entry twice in a row. *)
Fixpoint twice {A : Type} (l : list A) : list A :=
  match l with
  | [] => []
  | x :: rest => x :: x :: twice rest
  end.

(** An optional sign in front of a numeral. *)
Inductive Sign : Type := NoSign | Plus | Minus.

Definition sign_text (s : Sign) : string :=
  match s with NoSign => EmptyString | Plus => "+" | Minus => "-" end.

Definition sign_factor (s : Sign) : Z :=
  match s with Minus => -1 | _ => 1 end.

(** The string does not go on with a decimal digit. *)
Definition no_digit_ahead (s : string) : Prop :=
  match s with String c _ => is_digit c = false | EmptyString => True end.

Fixpoint all_white_space (s : string) : bool :=
  match s with
  | String c rest => is_white_space c && all_white_space rest
  | EmptyString => true
  end.

(** The variables both servers have, and the sockets. *)
Definition agree (w wl : World) : Prop :=
  lastClipboardContent (app w) = lastClipboardContent (app wl) ∧
  lastEmoji (app w) = lastEmoji (app wl) ∧
  lastWord (app w) = lastWord (app wl) ∧
  lastQuality (app w) = lastQuality (app wl) ∧
  lastFrameRate (app w) = lastFrameRate (app wl) ∧
  macUserSocketId (app w) = macUserSocketId (app wl) ∧
  sockets w = sockets wl.

Ltac legacy_unfold :=
  cbv [LegacyServer.step run_handler exec LegacyServer.dispatch
       LegacyServer.on_identify LegacyServer.on_clipboardData LegacyServer.on_wordToMac
       LegacyServer.on_qualityChange LegacyServer.on_frameRateChange
       LegacyServer.on_emojiToWeb LegacyServer.on_disconnect Legacy.on_screenData
       io_emit socket_emit socket_broadcast_emit io_to_emit emit setTimeout gets assign
       mbind mret Handler_bind Handler_ret].


(** * Lemmas *)

(** ** Running traces *)

Lemma world_eta (w : World) :
  {| app := app w; sockets := sockets w; timers := timers w; now := now w |} = w.
Proof. by destruct w. Qed.

Lemma run_app (w : World) (t1 t2 : list Step) :
  run w (t1 ++ t2) =
  let '(w1, out1) := run w t1 in
  let '(w2, out2) := run w1 t2 in
  (w2, out1 ++ out2).
Proof.
  revert w. induction t1 as [|s t1 IH]; intros w; simpl.
  - by destruct (run w t2).
  - destruct (step w s) as [w1 o1]. rewrite IH.
    destruct (run w1 t1) as [w2 o2]. destruct (run w2 t2) as [w3 o3].
    by rewrite app_assoc.
Qed.

Lemma run_snoc_world (w : World) (trace : list Step) (s : Step) :
  (run w (trace ++ [s])).1 = (step (run w trace).1 s).1.
Proof.
  rewrite run_app. destruct (run w trace) as [w1 o1]. simpl.
  destruct (step w1 s) as [w2 o2]. reflexivity.
Qed.

Lemma run_cons_world (w : World) (s : Step) (rest : list Step) :
  (run w (s :: rest)).1 = (run (step w s).1 rest).1.
Proof.
  simpl. destruct (step w s) as [w1 o1]. simpl. by destruct (run w1 rest).
Qed.

Lemma reachable_initial : reachable initial_world.
Proof. by exists []. Qed.

Lemma reachable_step (w : World) (s : Step) :
  reachable w → reachable (step w s).1.
Proof.
  intros [trace <-]. exists (trace ++ [s]). apply run_snoc_world.
Qed.

Lemma reachable_run (w : World) (trace : list Step) :
  reachable w → reachable (run w trace).1.
Proof.
  revert w. induction trace as [|s trace IH]; intros w Hw; simpl; [done|].
  pose proof (reachable_step w s Hw) as H1.
  destruct (step w s) as [w1 o1]. specialize (IH w1 H1).
  by destruct (run w1 trace).
Qed.

(** Induction over the turns that lead to a reachable world. *)
Lemma reachable_ind (P : World → Prop) :
  P initial_world →
  (∀ w s, reachable w → P w → P (step w s).1) →
  ∀ w, reachable w → P w.
Proof.
  intros Hinit Hstep w [trace <-].
  induction trace as [|s trace IH] using rev_ind; [exact Hinit|].
  rewrite run_snoc_world. apply Hstep; [by exists trace | exact IH].
Qed.

(** ** Timers and the scheduling loop *)

Lemma forEach_from_setTimeout (index : nat) (queue : list Msg) (st : State) :
  forEach_from index queue (λ msg index, setTimeout msg index (Z.of_nat index * 2500)) st
  = (tt, st, schedule_log index queue).
Proof.
  revert index. induction queue as [|msg rest IH]; intros index; [done|].
  simpl. cbv [mbind Handler_bind setTimeout]. by rewrite IH.
Qed.

Lemma add_timer_Forall (P : Timer → Prop) (t : Timer) (pending : list Timer) :
  P t → Forall P pending → Forall P (add_timer t pending).
Proof.
  intros Ht. induction 1 as [|p rest Hp Hrest IH]; simpl.
  - by constructor.
  - destruct (due p <=? due t); constructor; auto.
Qed.

Lemma perform_timers_Forall (P : Msg → Prop) (clock : Z) (log : list Effect)
    (pending : list Timer) :
  Forall (timer_ok P) log →
  Forall (λ t, P (timer_msg t)) pending →
  Forall (λ t, P (timer_msg t)) (perform clock log pending).1.
Proof.
  intros Hlog. revert pending.
  induction Hlog as [|e rest He Hrest IH]; intros pending Hp; simpl; [done|].
  destruct e as [e|msg index delay].
  - specialize (IH pending Hp). by destruct (perform clock rest pending).
  - apply IH. by apply add_timer_Forall.
Qed.

Lemma schedule_log_ok (P : Msg → Prop) (index : nat) (queue : list Msg) :
  Forall P queue → Forall (timer_ok P) (schedule_log index queue).
Proof.
  intros H. revert index. induction H; intros index; simpl; constructor; auto.
Qed.

Lemma add_timer_last (t : Timer) (pending : list Timer) :
  Forall (λ p, due p ≤ due t) pending → add_timer t pending = pending ++ [t].
Proof.
  induction 1 as [|p rest Hp Hrest IH]; simpl; [done|].
  destruct (due p <=? due t) eqn:E; [by rewrite IH|]. apply Z.leb_gt in E. lia.
Qed.

Lemma perform_schedule (clock : Z) (queue : list Msg) (index : nat) (pending : list Timer) :
  Forall (λ p, due p ≤ clock + Z.of_nat index * 2500) pending →
  perform clock (schedule_log index queue) pending
  = (pending ++ drain_timers clock index queue, []).
Proof.
  revert index pending. induction queue as [|msg rest IH]; intros index pending Hp; simpl.
  - by rewrite app_nil_r.
  - rewrite add_timer_last by exact Hp. rewrite IH.
    + by rewrite <- app_assoc.
    + apply Forall_app_2.
      * eapply Forall_impl; [exact Hp|]. simpl. intros p Hle. lia.
      * constructor; [simpl; lia|constructor].
Qed.

Lemma perform_schedule_out (clock : Z) (queue : list Msg) (index : nat) (pending : list Timer) :
  (perform clock (schedule_log index queue) pending).2 = [].
Proof.
  revert index pending. induction queue as [|msg rest IH]; intros index pending; simpl; [done|].
  apply IH.
Qed.

Lemma length_drain_timers (t0 : Z) (index : nat) (queue : list Msg) :
  length (drain_timers t0 index queue) = length queue.
Proof.
  revert index. induction queue as [|msg rest IH]; intros index; simpl; [done|].
  by rewrite IH.
Qed.

(** ** Invariants of reachable worlds *)

Lemma queue_inv_step (w : World) (s : Step) : queue_inv w → queue_inv (step w s).1.
Proof.
  unfold queue_inv. intros (Hq & Ht & Hl).
  destruct s as [socket|socket e|socket| |ms]; [done| | | |done].
  - destruct e; handler_unfold; simpl; try done.
    + (* identify *)
      destruct (String.eqb type0 "macos"); simpl.
      * destruct (0 <? messageQueue_length _) eqn:Hlen; simpl; [|done].
        unfold forEach. rewrite forEach_from_setTimeout. simpl.
        pose proof (perform_timers_Forall is_word (now w)
                      (schedule_log 0 (messageQueue (app w))) (timers w)
                      (schedule_log_ok _ _ _ Hq) Ht) as Hp.
        destruct (perform _ _ _) as [pending out]. done.
      * destruct (0 <? messageQueue_length _); simpl; [|done].
        split; [constructor|]. split; [done|]. intros H. by destruct H.
    + (* wordToMac *)
      destruct (truthy _ && _) eqn:Hc; simpl.
      * apply andb_true_iff in Hc as [_ Hlen%Z.eqb_eq].
        unfold messageQueue_length in Hlen. simpl in Hlen.
        destruct (messageQueue (app w)); [|simpl in Hlen; lia].
        split; [done|]. split; [done|]. intros H. by destruct H.
      * split; [|split]; [|done|].
        -- apply Forall_app_2; [exact Hq|]. constructor; [by exists word|constructor].
        -- intros _. by rewrite last_snoc.
  - handler_unfold; simpl. case_bool_decide; simpl; done.
  - handler_unfold. destruct (timers w) as [|t rest] eqn:Htimers; simpl.
    { rewrite Htimers. repeat split; auto. }
    apply Forall_cons in Ht as [Hhd Htl].
    destruct (Z.of_nat (timer_index t) =? _); simpl; [|repeat split; auto].
    split; [constructor|]. split; [done|]. intros H. by destruct H.
Qed.

Lemma reachable_queue_inv (w : World) : reachable w → queue_inv w.
Proof.
  apply reachable_ind.
  - split; [constructor|]. split; [constructor|]. intros H. by destruct H.
  - intros w' s _. apply queue_inv_step.
Qed.

Lemma Forall_is_word (queue : list Msg) :
  Forall is_word queue → ∃ words, queue = word_msg <$> words.
Proof.
  induction 1 as [|msg rest [word ->] _ [words ->]].
  - by exists [].
  - by exists (word :: words).
Qed.

(** ** [parseInt] yields [NaN] exactly on input without a leading integer *)

Lemma read_digits_Some (s : string) (acc : Z) : is_Some (read_digits s (Some acc)).
Proof.
  revert acc. induction s as [|c rest IH]; intros acc; simpl; [by eexists|].
  destruct (is_digit c); [apply IH | by eexists].
Qed.

Lemma read_digits_None (s : string) :
  read_digits s None = None ↔
  match s with String c _ => is_digit c = false | EmptyString => True end.
Proof.
  destruct s as [|c rest]; simpl; [done|].
  destruct (is_digit c) eqn:Hd; [|done].
  split; [|done]. intros H.
  destruct (read_digits_Some rest (10 * 0 + digit_value c)) as [z Hz].
  simpl in *. congruence.
Qed.

Lemma parseInt_NaN (s : string) :
  parseInt s = NaN ↔ starts_with_integer s = false.
Proof.
  unfold parseInt, starts_with_integer.
  assert (Hcase : ∀ sign t, match read_digits t None with
                            | Some n => Num (sign * n)
                            | None => NaN
                            end = NaN ↔ read_digits t None = None).
  { intros sign t. destruct (read_digits t None); split; congruence. }
  destruct (skip_white_space s) as [|c rest]; [done|].
  case_bool_decide as Hsign.
  - destruct Hsign as [-> | ->]; rewrite Hcase, read_digits_None;
      destruct rest; split; (done || congruence).
  - assert (Hd : ∀ t : Z * string, t = (1, String c rest) →
                 (let '(sign, s0) := t in
                  match read_digits s0 None with
                  | Some n => Num (sign * n)
                  | None => NaN
                  end) = NaN ↔ is_digit c = false).
    { intros t ->. rewrite Hcase. apply read_digits_None. }
    apply Hd.
    destruct c as [[] [] [] [] [] [] [] []]; try reflexivity;
      exfalso; apply Hsign; auto.
Qed.

(** ** The device binding along a trace *)

Lemma step_macUserSocketId (w : World) (s : Step) :
  macUserSocketId (app (step w s).1) =
  match s with
  | Receive socket (Identify type) =>
      if bool_decide (type = "macos") then Some socket else macUserSocketId (app w)
  | Close socket =>
      if bool_decide (Some socket = macUserSocketId (app w)) then None
      else macUserSocketId (app w)
  | _ => macUserSocketId (app w)
  end.
Proof.
  destruct s as [socket|socket e|socket| |ms]; try reflexivity.
  - destruct e; handler_unfold; simpl; try reflexivity.
    + case_bool_decide as Hty.
      * subst. simpl. destruct (0 <? _); simpl; [|reflexivity].
        unfold forEach. rewrite forEach_from_setTimeout. simpl.
        by destruct (perform _ _ _).
      * destruct (String.eqb type0 "macos") eqn:E; [apply String.eqb_eq in E; done|].
        simpl. by destruct (0 <? _).
    + by destruct (truthy _ && _).
  - handler_unfold; simpl. by case_bool_decide.
  - handler_unfold. destruct (timers w) as [|t rest]; simpl; [reflexivity|].
    by destruct (Z.of_nat (timer_index t) =? _).
Qed.

Lemma device_binding_back_run (trace : list Step) (closed : gset SocketId) :
  device_binding_back (reverse trace) closed
  = hide_closed closed (macUserSocketId (app (run initial_world trace).1)).
Proof.
  revert closed. induction trace as [|s trace IH] using rev_ind; intros closed; [done|].
  rewrite reverse_snoc, run_snoc_world, step_macUserSocketId.
  destruct s as [socket|socket e|socket| |ms]; simpl; try apply IH.
  - destruct e; try apply IH. case_bool_decide; [done|apply IH].
  - rewrite IH. unfold hide_closed.
    destruct (macUserSocketId (app (run initial_world trace).1)) as [mac|]; [|by case_bool_decide].
    repeat case_bool_decide; simplify_eq; try done.
    all: rewrite ?not_elem_of_union, ?elem_of_union, ?elem_of_singleton in *; intuition congruence.
Qed.

Lemma run_device_binding (trace : list Step) :
  macUserSocketId (app (run initial_world trace).1) = device_binding trace.
Proof.
  unfold device_binding. rewrite device_binding_back_run.
  unfold hide_closed. destruct (macUserSocketId _); [|done].
  case_bool_decide as H; [|done]. by apply not_elem_of_empty in H.
Qed.

Lemma step_sockets (w : World) (s : Step) :
  sockets (step w s).1 =
  match s with
  | Connect socket => {[socket]} ∪ sockets w
  | Close socket => sockets w ∖ {[socket]}
  | _ => sockets w
  end.
Proof.
  destruct s as [socket|socket e|socket| |ms]; try reflexivity.
  - unfold step, run_handler. destruct (exec _ _) as [st log].
    by destruct (perform _ _ _).
  - unfold step, run_handler. destruct (exec _ _) as [st log].
    by destruct (perform _ _ _).
  - unfold step. destruct (timers w) as [|t rest]; [reflexivity|].
    unfold run_handler. destruct (exec _ _) as [st log].
    by destruct (perform _ _ _).
Qed.

Lemma settings_change_out (w : World) (socket : SocketId) (input : string) :
  (step w (Receive socket (QualityChange input))).2
  = [(now w, emit_of (ToRoom (macUserSocketId (app w))) "qualityChange" (PNum (parseInt input)))]
  ∧ (step w (Receive socket (FrameRateChange input))).2
  = [(now w, emit_of (ToRoom (macUserSocketId (app w))) "frameRateChange" (PNum (parseInt input)))].
Proof. by handler_unfold. Qed.

(** ** The stored channel values along a trace *)

Lemma step_registry (w : World) (s : Step) :
  lastClipboardContent (app (step w s).1)
    = default (lastClipboardContent (app w)) (clipboard_update s) ∧
  lastEmoji (app (step w s).1) = default (lastEmoji (app w)) (emoji_update s) ∧
  lastHtmlSource (app (step w s).1) = default (lastHtmlSource (app w)) (html_update s) ∧
  lastWord (app (step w s).1) = default (lastWord (app w)) (word_update s) ∧
  lastQuality (app (step w s).1) = default (lastQuality (app w)) (quality_update s) ∧
  lastFrameRate (app (step w s).1) = default (lastFrameRate (app w)) (frameRate_update s).
Proof.
  destruct s as [socket|socket e|socket| |ms]; try done.
  - destruct e; handler_unfold; simpl; try done.
    + destruct (String.eqb type0 "macos"); simpl.
      * destruct (0 <? _); simpl; [|done].
        unfold forEach. rewrite forEach_from_setTimeout. simpl.
        by destruct (perform _ _ _).
      * by destruct (0 <? _).
    + by destruct (truthy _ && _).
  - handler_unfold; simpl. by case_bool_decide.
  - handler_unfold. destruct (timers w) as [|t rest]; simpl; [done|].
    by destruct (Z.of_nat (timer_index t) =? _).
Qed.

Lemma run_registry (trace : list Step) (w : World) :
  lastClipboardContent (app (run w trace).1)
    = latest clipboard_update (lastClipboardContent (app w)) trace ∧
  lastEmoji (app (run w trace).1) = latest emoji_update (lastEmoji (app w)) trace ∧
  lastHtmlSource (app (run w trace).1) = latest html_update (lastHtmlSource (app w)) trace ∧
  lastWord (app (run w trace).1) = latest word_update (lastWord (app w)) trace ∧
  lastQuality (app (run w trace).1) = latest quality_update (lastQuality (app w)) trace ∧
  lastFrameRate (app (run w trace).1) = latest frameRate_update (lastFrameRate (app w)) trace.
Proof.
  revert w. induction trace as [|s trace IH]; intros w; [done|].
  simpl. destruct (step_registry w s) as (Hc & He & Hh & Hw & Hq & Hf).
  destruct (step w s) as [w1 o1]. specialize (IH w1).
  destruct (run w1 trace) as [w2 o2]. simpl in *.
  unfold latest in *. simpl. by rewrite <- Hc, <- He, <- Hh, <- Hw, <- Hq, <- Hf.
Qed.

(** ** Device identification and the drain *)

(** The device's identification, spelled out. *)
Lemma identify_device (w : World) (device : SocketId) :
  timers w = [] →
  step w (Receive device (Identify "macos"))
  = ({| app := set_macUserSocketId (Some device) (app w);
        sockets := sockets w;
        timers := drain_timers (now w) 0 (messageQueue (app w));
        now := now w |},
     [(now w, emit_of ToAll "statusUpdate" (mac_status "connected"));
      (now w, emit_of (ToSocket device) "wordToMac" (PStr (lastWord (app w))));
      (now w, emit_of (ToSocket device) "qualityChange" (PNum (lastQuality (app w))));
      (now w, emit_of (ToSocket device) "frameRateChange" (PNum (lastFrameRate (app w))))]).
Proof.
  intros Htimers. handler_unfold. simpl.
  destruct (0 <? messageQueue_length _) eqn:Hlen; simpl.
  - unfold forEach. rewrite forEach_from_setTimeout. simpl.
    rewrite Htimers, (perform_schedule (now w) (messageQueue (app w)) 0 []) by constructor.
    reflexivity.
  - apply Z.ltb_ge in Hlen. unfold messageQueue_length in Hlen. simpl in Hlen.
    destruct (messageQueue (app w)); [|simpl in Hlen; lia].
    by rewrite Htimers.
Qed.

(** What the device is sent by its own identification, whatever is pending. *)
Lemma identify_device_out (w : World) (device : SocketId) :
  (step w (Receive device (Identify "macos"))).2
  = [(now w, emit_of ToAll "statusUpdate" (mac_status "connected"));
     (now w, emit_of (ToSocket device) "wordToMac" (PStr (lastWord (app w))));
     (now w, emit_of (ToSocket device) "qualityChange" (PNum (lastQuality (app w))));
     (now w, emit_of (ToSocket device) "frameRateChange" (PNum (lastFrameRate (app w))))].
Proof.
  handler_unfold. simpl.
  destruct (0 <? messageQueue_length _); simpl; [|reflexivity].
  unfold forEach. rewrite forEach_from_setTimeout. simpl.
  pose proof (perform_schedule_out (now w) (messageQueue (app w)) 0 (timers w)) as Hout.
  destruct (perform _ _ _) as [pending out]. simpl in *. by subst out.
Qed.

(** The text commands enter the queue in arrival order while no device is
    bound, and nothing else moves. *)
Lemma enqueue_run (cmds : list (SocketId * string)) (w : World) :
  macUserSocketId (app w) = None →
  let w1 := (run w (enqueue cmds)).1 in
  messageQueue (app w1) = messageQueue (app w) ++ (word_msg <$> cmds.*2) ∧
  macUserSocketId (app w1) = None ∧
  timers w1 = timers w ∧ now w1 = now w ∧ sockets w1 = sockets w.
Proof.
  revert w. induction cmds as [|[sender word] cmds IH]; intros w Hmac; cbv zeta.
  - simpl. by rewrite app_nil_r.
  - change (enqueue ((sender, word) :: cmds))
      with (Receive sender (WordToMac word) :: enqueue cmds).
    rewrite run_cons_world.
    set (w' := (step w (Receive sender (WordToMac word))).1).
    assert (Hstep : messageQueue (app w') = messageQueue (app w) ++ [word_msg word] ∧
                    macUserSocketId (app w') = None ∧
                    timers w' = timers w ∧ now w' = now w ∧ sockets w' = sockets w).
    { unfold w'. handler_unfold. simpl. rewrite Hmac. simpl. by rewrite Hmac. }
    destruct Hstep as (Hq & Hm & Ht & Hn & Hs).
    destruct (IH w' Hm) as (IHq & IHm & IHt & IHn & IHs).
    rewrite IHq, Hq, <- app_assoc. simpl. repeat split; congruence.
Qed.

(** One timer of a drain fires. *)
Lemma fire_one (w : World) (t : Timer) (rest : list Timer) :
  timers w = t :: rest →
  step w FireTimer =
  let clock := Z.max (now w) (due t) in
  let len := Z.of_nat (length (messageQueue (app w))) in
  let sent :=
    [(clock, emit_of (ToRoom (macUserSocketId (app w))) (event (timer_msg t)) (data (timer_msg t)));
     (clock, emit_of ToAll "statusUpdate"
               (queue_status "queued" (Some (len - Z.of_nat (timer_index t) - 1))))] in
  if Z.of_nat (timer_index t) =? len - 1
  then ({| app := set_messageQueue [] (app w); sockets := sockets w;
           timers := rest; now := clock |},
        sent ++ [(clock, emit_of ToAll "statusUpdate" (queue_status "cleared" None))])
  else ({| app := app w; sockets := sockets w; timers := rest; now := clock |}, sent).
Proof.
  intros Htimers. handler_unfold. rewrite Htimers. simpl.
  unfold messageQueue_length.
  destruct (Z.of_nat (timer_index t) =? _); simpl; [reflexivity|].
  by destruct (app w).
Qed.

(** Firing the timers of a drain, from position [i] on, with the device
    bound and the queue as it was when the drain was scheduled. *)
Lemma fire_drain (t0 : Z) (device : SocketId) (words : list string) (i : nat) (w : World) :
  macUserSocketId (app w) = Some device →
  timers w = drain_timers t0 i (word_msg <$> words) →
  length (messageQueue (app w)) = (i + length words)%nat →
  now w ≤ t0 + Z.of_nat i * 2500 →
  let '(w', out) := run w (replicate (length words) FireTimer) in
  out = paced_delivery t0 device (i + length words) i words ∧
  macUserSocketId (app w') = Some device ∧
  timers w' = [] ∧
  sockets w' = sockets w ∧
  messageQueue (app w') = match words with [] => messageQueue (app w) | _ :: _ => [] end.
Proof.
  revert i w. induction words as [|word rest IH]; intros i w Hmac Htimers Hlen Hnow.
  - simpl in *. done.
  - simpl replicate. cbn [run].
    rewrite fmap_cons in Htimers. cbn [drain_timers] in Htimers.
    rewrite (fire_one w _ _ Htimers). cbv zeta. cbn [due timer_msg timer_index].
    rewrite Hmac, Hlen, Z.max_r by lia.
    replace (t0 + Z.of_nat i * 2500) with (t0 + 2500 * Z.of_nat i) by lia.
    replace (Z.of_nat (i + length (word :: rest)) - Z.of_nat i - 1)
      with (Z.of_nat (i + length (word :: rest)) - 1 - Z.of_nat i) by lia.
    destruct rest as [|word' rest'].
    + replace (Z.of_nat i =? Z.of_nat (i + length [word]) - 1) with true
        by (symmetry; apply Z.eqb_eq; simpl; lia).
      simpl. repeat split; (reflexivity || assumption).
    + replace (Z.of_nat i =? Z.of_nat (i + length (word :: word' :: rest')) - 1) with false
        by (symmetry; apply Z.eqb_neq; simpl; lia).
      set (w1 := {| app := app w; sockets := sockets w;
                    timers := drain_timers t0 (S i) (word_msg <$> word' :: rest');
                    now := t0 + 2500 * Z.of_nat i |}).
      specialize (IH (S i) w1 Hmac eq_refl).
      destruct (run w1 (replicate (length (word' :: rest')) FireTimer)) as [w' out].
      destruct IH as (Hout & Hm & Ht & Hs & Hq).
      { simpl. simpl in Hlen. lia. }
      { simpl. lia. }
      subst out. repeat split; try assumption.
      cbn [paced_delivery app]. 
      replace (S i + length (word' :: rest'))%nat with (i + length (word :: word' :: rest'))%nat
        by (simpl; lia).
      reflexivity.
Qed.

(** ** Who receives what *)

Lemma reaches_recipients (conns : gset SocketId) (who : SocketId) (t : Target) :
  who ∈ recipients conns t ↔ who ∈ conns ∧ reaches who t = true.
Proof.
  destruct t as [|s|s|[r|]]; simpl; rewrite ?bool_decide_eq_true.
  - tauto.
  - rewrite elem_of_intersection, elem_of_singleton. intuition congruence.
  - rewrite elem_of_difference, elem_of_singleton. intuition congruence.
  - rewrite elem_of_intersection, elem_of_singleton. intuition congruence.
  - rewrite elem_of_empty. intuition congruence.
Qed.

Lemma words_received_app (who : SocketId) (out1 out2 : list (Z * Emit)) :
  words_received who (out1 ++ out2) = words_received who out1 ++ words_received who out2.
Proof. apply omap_app. Qed.

Lemma words_received_paced (t0 : Z) (device : SocketId) (N i : nat) (words : list string) :
  words_received device (paced_delivery t0 device N i words) = PStr <$> words.
Proof.
  revert i. induction words as [|word rest IH]; intros i; [done|].
  cbn [paced_delivery]. unfold words_received in *. cbn [omap list_omap].
  simpl. rewrite bool_decide_eq_true_2 by done. simpl.
  rewrite omap_app, IH. by destruct rest.
Qed.

(** * The claims *)

(** ** C1: a viewer identifies while commands are queued *)

(** What a viewer's identification does when commands are queued: the queue
    is emptied, and the count sent is the length read after that. *)
Lemma viewer_identify_clears_queue (w : World) (socket : SocketId) (type : string) :
  type ≠ "macos" → messageQueue (app w) ≠ [] →
  let '(w', out) := step w (Receive socket (Identify type)) in
  messageQueue (app w') = [] ∧
  last out = Some (now w, emit_of (ToSocket socket) "statusUpdate" (queue_status "queued" (Some 0))).
Proof.
  intros Hty Hq. handler_unfold.
  destruct (String.eqb type "macos") eqn:E; [apply String.eqb_eq in E; done|].
  simpl. unfold messageQueue_length.
  destruct (messageQueue (app w)) as [|m q]; [done|]. simpl. done.
Qed.

(** C1, on the code: two commands are queued with no device; a viewer then
    identifies on socket 3.  The queue held two entries before and none
    after, and the count sent to the viewer is 0. *)
Lemma viewer_identify_queue_at_input :
  let w := (run initial_world
              [Connect 1; Receive 1 (Identify "web");
               Receive 1 (WordToMac "1% About"); Receive 1 (WordToMac "2% Back");
               Connect 3]).1 in
  let '(w', out) := step w (Receive 3 (Identify "web")) in
  messageQueue (app w) = [ {| event := "wordToMac"; data := PStr "1% About" |};
                           {| event := "wordToMac"; data := PStr "2% Back" |} ] ∧
  messageQueue (app w') = [] ∧
  last out = Some (0, emit_of (ToSocket 3) "statusUpdate" (queue_status "queued" (Some 0))).
Proof. vm_compute. repeat split; reflexivity. Qed.

(** ** C2: the queue drain *)

(** C2: start with no device bound, an empty queue and no drain in flight;
    let [N] text commands arrive and then let [device] identify.  With no
    other event in between, the pending timers deliver the [N] commands to
    the device's room in enqueue order, command [i] at [2500 * i] ms after
    the identification, each followed by a queue-depth status to all with
    count [N - 1 - i], and the last also by the cleared status to all; the
    queue is then empty and no timer is left. *)
Theorem queued_commands_drain_in_order (w : World) (cmds : list (SocketId * string))
    (device : SocketId) :
  macUserSocketId (app w) = None → messageQueue (app w) = [] → timers w = [] →
  let words := cmds.*2 in
  let w1 := (run w (enqueue cmds)).1 in
  let w2 := (step w1 (Receive device (Identify "macos"))).1 in
  let '(w3, out) := run_timers w2 in
  messageQueue (app w1) = word_msg <$> words ∧
  out = paced_delivery (now w) device (length words) 0 words ∧
  messageQueue (app w3) = [] ∧
  timers w3 = [] ∧
  macUserSocketId (app w3) = Some device ∧
  sockets w3 = sockets w.
Proof.
  intros Hmac Hqueue Htimers words w1 w2.
  destruct (enqueue_run cmds w Hmac) as (Hq1 & Hm1 & Ht1 & Hn1 & Hs1).
  fold w1 in Hq1, Hm1, Ht1, Hn1, Hs1. fold words in Hq1.
  rewrite Hqueue in Hq1. simpl in Hq1. rewrite Htimers in Ht1.
  assert (Hw2 : w2 = {| app := set_macUserSocketId (Some device) (app w1);
                        sockets := sockets w1;
                        timers := drain_timers (now w) 0 (word_msg <$> words);
                        now := now w |}).
  { unfold w2. rewrite (identify_device w1 device Ht1). simpl. by rewrite Hq1, Hn1. }
  unfold run_timers. rewrite Hw2. cbn [timers].
  rewrite length_drain_timers, length_fmap.
  pose proof (fire_drain (now w) device words 0
                {| app := set_macUserSocketId (Some device) (app w1);
                   sockets := sockets w1;
                   timers := drain_timers (now w) 0 (word_msg <$> words);
                   now := now w |} eq_refl eq_refl) as Hfire.
  destruct (run _ (replicate (length words) FireTimer)) as [w3 out].
  destruct Hfire as (Hout & Hm3 & Ht3 & Hs3 & Hq3).
  { simpl. by rewrite Hq1, length_fmap. }
  { simpl. lia. }
  split; [exact Hq1|]. split; [exact Hout|].
  split; [|split; [exact Ht3|split; [exact Hm3|simpl in Hs3; congruence]]].
  rewrite Hq3. simpl. rewrite Hq1. by destruct words.
Qed.

(** The hypotheses of C2 hold at start-up, with the two commands of the
    specification's example. *)
Lemma queued_commands_drain_in_order_witness :
  let w := initial_world in
  let cmds := [(1%nat, "1% About"); (1%nat, "2% Back")] in
  macUserSocketId (app w) = None ∧ messageQueue (app w) = [] ∧ timers w = [] ∧
  let '(w3, out) :=
    run_timers (step (run w (enqueue cmds)).1 (Receive 2 (Identify "macos"))).1 in
  messageQueue (app (run w (enqueue cmds)).1) = word_msg <$> cmds.*2 ∧
  out = paced_delivery (now w) 2 (length cmds.*2) 0 cmds.*2 ∧
  messageQueue (app w3) = [] ∧
  timers w3 = [] ∧
  macUserSocketId (app w3) = Some 2%nat ∧
  sockets w3 = sockets w.
Proof.
  do 3 (split; [reflexivity|]).
  exact (queued_commands_drain_in_order initial_world
           [(1%nat, "1% About"); (1%nat, "2% Back")] 2%nat eq_refl eq_refl eq_refl).
Defined.

(** The spec's example, evaluated: two commands queued, then the device
    connects. *)
Example drain_example :
  (run_timers (run initial_world
                 [Receive 1 (WordToMac "1% About"); Receive 1 (WordToMac "2% Back");
                  Receive 2 (Identify "macos")]).1).2
  = [(0, emit_of (ToRoom (Some 2%nat)) "wordToMac" (PStr "1% About"));
     (0, emit_of ToAll "statusUpdate" (queue_status "queued" (Some 1)));
     (2500, emit_of (ToRoom (Some 2%nat)) "wordToMac" (PStr "2% Back"));
     (2500, emit_of ToAll "statusUpdate" (queue_status "queued" (Some 0)));
     (2500, emit_of ToAll "statusUpdate" (queue_status "cleared" None))].
Proof. vm_compute. reflexivity. Qed.

(** ** C3: routing of text commands *)

(** C3 as stated fails: socket 2 is bound as device while one command is
    still queued (its drain timer has not run); the next text command is
    queued behind it and nothing is sent to socket 2. *)
Lemma wordToMac_queued_while_device_bound :
  let w := (run initial_world
              [Connect 1; Receive 1 (Identify "web"); Receive 1 (WordToMac "a");
               Connect 2; Receive 2 (Identify "macos")]).1 in
  let '(w', out) := step w (Receive 1 (WordToMac "b")) in
  macUserSocketId (app w) = Some 2%nat ∧
  messageQueue (app w) = [word_msg "a"] ∧
  messageQueue (app w') = [word_msg "a"; word_msg "b"] ∧
  out = [(0, emit_of ToAll "statusUpdate" (queue_status "queued" (Some 2)))].
Proof. vm_compute. repeat split; reflexivity. Qed.

(** C3, amended: a text command is always stored as the last word; it is
    unicast at once to the device exactly when a device is bound and the
    queue is empty, and is appended to the queue (with a queue-depth status
    to all) in every other case. *)
Theorem wordToMac_routing (w : World) (socket : SocketId) (word : string) :
  let '(w', out) := step w (Receive socket (WordToMac word)) in
  lastWord (app w') = word ∧
  match macUserSocketId (app w), messageQueue (app w) with
  | Some mac, [] =>
      messageQueue (app w') = [] ∧
      out = [(now w, emit_of (ToRoom (Some mac)) "wordToMac" (PStr word))]
  | _, queue =>
      messageQueue (app w') = queue ++ [word_msg word] ∧
      out = [(now w, emit_of ToAll "statusUpdate"
                       (queue_status "queued" (Some (Z.of_nat (length queue) + 1))))]
  end.
Proof.
  handler_unfold. unfold messageQueue_length. simpl.
  destruct (macUserSocketId (app w)) as [mac|], (messageQueue (app w)) as [|m q] eqn:Hq;
    simpl; (split; [reflexivity|]); split; try reflexivity.
  all: rewrite ?Hq; simpl; rewrite ?length_app; simpl; try reflexivity.
  all: unfold emit_of; repeat f_equal; lia.
Qed.

(** ** C4: viewer hydration *)

(** C4 as stated fails: the device is on socket 9, and a viewer has set the
    last word, the quality and the frame rate; a new viewer on socket 2 is
    sent the clipboard, the glyph, the markup and the device status, and
    none of those three values. *)
Lemma viewer_hydration_omits_device_settings :
  let w := (run initial_world
              [Connect 9; Receive 9 (Identify "macos");
               Connect 1; Receive 1 (Identify "web");
               Receive 1 (WordToMac "hello"); Receive 1 (QualityChange "50");
               Receive 1 (FrameRateChange "24"); Connect 2]).1 in
  lastWord (app w) = "hello" ∧ lastQuality (app w) = Num 50 ∧ lastFrameRate (app w) = Num 24 ∧
  (step w (Receive 2 (Identify "web"))).2
  = [(0, emit_of (ToSocket 2) "clipboardData" (PStr "Welcome to the shared clipboard!"));
     (0, emit_of (ToSocket 2) "emojiToWeb" (PStr (lastEmoji initial_state)));
     (0, emit_of (ToSocket 2) "renderHTML" (PStr initialHtmlSource));
     (0, emit_of (ToSocket 2) "statusUpdate" (mac_status "connected"))].
Proof. vm_compute. repeat split; reflexivity. Qed.

(** C4, amended: after any turns from start-up, the handler that identifies
    a new viewer sends that viewer first, and before any later event is
    handled, the latest clipboard content, status glyph and rendered markup
    and the current device status, in that order.  Everything the handler
    sends goes to the new viewer alone, and the last text command, quality
    and frame rate are not part of it: those are sent to the device when it
    identifies. *)
Theorem viewer_hydration (trace : list Step) (socket : SocketId) (type : string) :
  type ≠ "macos" →
  let w := (run initial_world trace).1 in
  let out := (step w (Receive socket (Identify type))).2 in
  take 4 out
  = [(now w, emit_of (ToSocket socket) "clipboardData"
               (PStr (latest clipboard_update (lastClipboardContent initial_state) trace)));
     (now w, emit_of (ToSocket socket) "emojiToWeb"
               (PStr (latest emoji_update (lastEmoji initial_state) trace)));
     (now w, emit_of (ToSocket socket) "renderHTML"
               (PStr (latest html_update (lastHtmlSource initial_state) trace)));
     (now w, emit_of (ToSocket socket) "statusUpdate"
               (mac_status (if truthy (device_binding trace) then "connected" else "disconnected")))] ∧
  Forall (λ o, o.1 = now w ∧ target o.2 = ToSocket socket ∧
               channel o.2 ∈ ["clipboardData"; "emojiToWeb"; "renderHTML"; "statusUpdate"]) out ∧
  (step w (Receive socket (Identify "macos"))).2
  = [(now w, emit_of ToAll "statusUpdate" (mac_status "connected"));
     (now w, emit_of (ToSocket socket) "wordToMac"
               (PStr (latest word_update (lastWord initial_state) trace)));
     (now w, emit_of (ToSocket socket) "qualityChange"
               (PNum (latest quality_update (lastQuality initial_state) trace)));
     (now w, emit_of (ToSocket socket) "frameRateChange"
               (PNum (latest frameRate_update (lastFrameRate initial_state) trace)))].
Proof.
  intros Hty w out.
  destruct (run_registry trace initial_world) as (Hc & He & Hh & Hw & Hq & Hf).
  change (app initial_world) with initial_state in Hc, He, Hh, Hw, Hq, Hf.
  rewrite <- Hc, <- He, <- Hh, <- Hw, <- Hq, <- Hf, <- run_device_binding. fold w.
  split; [|split; [|apply identify_device_out]].
  all: unfold out; clearbody w; clear -Hty; handler_unfold.
  all: destruct (String.eqb type "macos") eqn:E; [apply String.eqb_eq in E; done|].
  all: simpl; destruct (0 <? messageQueue_length (app w)); simpl; try reflexivity.
  all: repeat (apply Forall_cons; split; [split; [reflexivity|split; [reflexivity|]]|]);
       try apply Forall_nil.
  all: cbn; try exact I; repeat first [apply list_elem_of_here | apply list_elem_of_further].
Qed.

(** C4, amended, at a trace with two clipboard updates: the new viewer is
    sent the newer one first. *)
Lemma viewer_hydration_witness :
  let trace := [Connect 1; Receive 1 (Identify "web"); Receive 1 (ClipboardData "note");
                Receive 1 (ClipboardData "newer note"); Connect 2] in
  "web" ≠ "macos" ∧
  take 1 (step (run initial_world trace).1 (Receive 2 (Identify "web"))).2
  = [(0, emit_of (ToSocket 2) "clipboardData" (PStr "newer note"))].
Proof.
  split; [discriminate|].
  pose proof (viewer_hydration
                [Connect 1; Receive 1 (Identify "web"); Receive 1 (ClipboardData "note");
                 Receive 1 (ClipboardData "newer note"); Connect 2]
                2%nat "web" ltac:(discriminate)) as [H _].
  cbv zeta in H. apply (f_equal (take 1)) in H. rewrite take_take in H. exact H.
Defined.

(** ** C5: screen frames *)

(** What the screen-frame handler of index.js does with any frame: one
    emit to every connected socket, the sender included. *)
Lemma screenData_to_all (w : World) (socket : SocketId) (frame : string) :
  step w (Receive socket (ScreenData frame))
  = (w, [(now w, emit_of ToAll "screenData" (PStr frame))])
  ∧ recipients (sockets w) ToAll = sockets w.
Proof. handler_unfold. simpl. by rewrite world_eta. Qed.

(** The earlier server file leaves the sender out. *)
Lemma legacy_screenData_to_others (st : State) (conns : gset SocketId)
    (socket : SocketId) (frame : string) :
  exec (Legacy.on_screenData socket frame) st
  = (st, [DoEmit (emit_of (ToOthers socket) "screenData" (PStr frame))])
  ∧ socket ∉ recipients conns (ToOthers socket).
Proof.
  split; [reflexivity|]. simpl. rewrite elem_of_difference, elem_of_singleton. tauto.
Qed.

(** C5, on the code: with the device on socket 1 and a viewer on socket 2,
    a frame sent by socket 1 is emitted to all, and socket 1 is among the
    recipients. *)
Lemma screenData_echo_to_sender :
  let w := (run initial_world
              [Connect 1; Receive 1 (Identify "macos");
               Connect 2; Receive 2 (Identify "web")]).1 in
  let '(w', out) := step w (Receive 1 (ScreenData "frame")) in
  out = [(0, emit_of ToAll "screenData" (PStr "frame"))] ∧
  bool_decide (1%nat ∈ recipients (sockets w') ToAll) = true ∧
  bool_decide (1%nat ∈ recipients (sockets w') (ToOthers 1)) = false.
Proof. vm_compute. repeat split; reflexivity. Qed.

(** ** C6: the device binding *)

(** C6: (1) after any turns from start-up, the stored device binding is the
    most recent connection to identify as device unless it has closed
    since, and empty otherwise; (2) when [A] and then [B] identify as
    device, [B] is bound and a device-directed unicast (here of a settings
    change, from any socket) is addressed to [B]'s room, whose only possible
    member is [B]; (3) when the bound device's connection closes, the
    binding is emptied and one disconnected status goes to every remaining
    socket, while the close of any other socket changes nothing and sends
    nothing. *)
Theorem device_binding_last_writer_wins :
  (∀ trace : list Step,
     macUserSocketId (app (run initial_world trace).1) = device_binding trace) ∧
  (∀ (w : World) (A B sender : SocketId) (input : string),
     let w2 := (run w [Receive A (Identify "macos"); Receive B (Identify "macos")]).1 in
     macUserSocketId (app w2) = Some B ∧
     (step w2 (Receive sender (QualityChange input))).2
       = [(now w2, emit_of (ToRoom (Some B)) "qualityChange" (PNum (parseInt input)))] ∧
     recipients (sockets w2) (ToRoom (Some B)) ⊆ {[B]} ∧
     (A ≠ B → A ∉ recipients (sockets w2) (ToRoom (macUserSocketId (app w2))))) ∧
  (∀ (w : World) (socket : SocketId),
     let '(w', out) := step w (Close socket) in
     sockets w' = sockets w ∖ {[socket]} ∧
     if bool_decide (macUserSocketId (app w) = Some socket)
     then macUserSocketId (app w') = None ∧
          out = [(now w, emit_of ToAll "statusUpdate" (mac_status "disconnected"))] ∧
          recipients (sockets w') ToAll = sockets w ∖ {[socket]}
     else macUserSocketId (app w') = macUserSocketId (app w) ∧ out = []).
Proof.
  split; [|split].
  - apply run_device_binding.
  - intros w A B sender input w2.
    assert (Hmac : macUserSocketId (app w2) = Some B).
    { unfold w2. change [Receive A (Identify "macos"); Receive B (Identify "macos")]
        with ([Receive A (Identify "macos")] ++ [Receive B (Identify "macos")]).
      rewrite run_snoc_world, step_macUserSocketId. by rewrite bool_decide_eq_true_2. }
    split; [exact Hmac|]. split; [|split].
    + destruct (settings_change_out w2 sender input) as [-> _]. by rewrite Hmac.
    + simpl. apply intersection_subseteq_l.
    + intros HAB. rewrite Hmac. simpl.
      rewrite elem_of_intersection, elem_of_singleton. tauto.
  - intros w socket. handler_unfold. simpl.
    destruct (macUserSocketId (app w)) as [mac|] eqn:Hmac.
    + destruct (decide (mac = socket)) as [->|Hne].
      * rewrite !bool_decide_eq_true_2 by done. simpl. done.
      * rewrite !bool_decide_eq_false_2 by congruence. simpl. done.
    + rewrite !bool_decide_eq_false_2 by congruence. simpl. done.
Qed.

(** ** C7: settings are dropped, commands are queued *)

(** C7: with no device bound, a quality or frame-rate change leaves the
    queue and the pending timers as they were and its one emit reaches no
    socket, while a text command adds exactly one entry to the queue.
    Nothing but text commands is queued or scheduled in any world the
    server reaches, so no later drain can deliver a settings change. *)
Theorem settings_dropped_commands_queued (w : World) (socket : SocketId)
    (input word : string) :
  reachable w → macUserSocketId (app w) = None →
  (∀ ch, ch ∈ [QualityChange input; FrameRateChange input] →
     let '(w', out) := step w (Receive socket ch) in
     messageQueue (app w') = messageQueue (app w) ∧
     timers w' = timers w ∧
     Forall (λ o, recipients (sockets w') (target o.2) = ∅) out ∧
     Forall (λ msg, event msg = "wordToMac") (messageQueue (app w')) ∧
     Forall (λ t, event (timer_msg t) = "wordToMac") (timers w')) ∧
  (let '(w', out) := step w (Receive socket (WordToMac word)) in
   messageQueue (app w') = messageQueue (app w) ++ [word_msg word] ∧
   length (messageQueue (app w')) = S (length (messageQueue (app w)))).
Proof.
  intros Hreach Hmac.
  destruct (reachable_queue_inv w Hreach) as (Hq & Ht & _).
  split.
  - intros ch Hch.
    apply elem_of_cons in Hch as [-> | Hch];
      [|apply list_elem_of_singleton in Hch as ->].
    all: handler_unfold; simpl; rewrite Hmac; simpl.
    all: repeat split; auto.
    all: eapply Forall_impl; [eassumption|]; by intros ? [? ->].
  - handler_unfold. simpl. rewrite Hmac. simpl.
    split; [reflexivity|]. rewrite length_app. simpl. lia.
Qed.

(** C7 at a world with one viewer and no device. *)
Lemma settings_dropped_commands_queued_witness :
  let w := (run initial_world [Connect 1; Receive 1 (Identify "web")]).1 in
  macUserSocketId (app w) = None ∧
  messageQueue (app (step w (Receive 1 (QualityChange "50"))).1) = [] ∧
  messageQueue (app (step w (Receive 1 (WordToMac "1% About"))).1) = [word_msg "1% About"].
Proof.
  pose proof (settings_dropped_commands_queued
                (run initial_world [Connect 1; Receive 1 (Identify "web")]).1
                1%nat "50" "1% About"
                (reachable_run initial_world _ reachable_initial) eq_refl) as [Hs Hw].
  split; [reflexivity|]. split.
  - specialize (Hs (QualityChange "50") ltac:(left)).
    destruct (step _ (Receive 1 (QualityChange "50"))) as [w' out].
    exact (proj1 Hs).
  - destruct (step _ (Receive 1 (WordToMac "1% About"))) as [w' out].
    exact (proj1 Hw).
Defined.

(** ** C8: malformed numeric input *)

(** C8: a quality or frame-rate payload with no leading integer is taken
    all the same: the handler runs to its end, the stored value becomes
    [NaN] (every other variable keeps its value) and [NaN] is what
    [sendToMac] forwards. *)
Theorem malformed_number_is_stored (w : World) (socket : SocketId) (input : string) :
  starts_with_integer input = false →
  (let '(w', out) := step w (Receive socket (QualityChange input)) in
   lastQuality (app w') = NaN ∧
   app w' = set_lastQuality NaN (app w) ∧
   out = [(now w, emit_of (ToRoom (macUserSocketId (app w))) "qualityChange" (PNum NaN))]) ∧
  (let '(w', out) := step w (Receive socket (FrameRateChange input)) in
   lastFrameRate (app w') = NaN ∧
   app w' = set_lastFrameRate NaN (app w) ∧
   out = [(now w, emit_of (ToRoom (macUserSocketId (app w))) "frameRateChange" (PNum NaN))]).
Proof.
  intros Hbad%parseInt_NaN. handler_unfold. simpl. rewrite Hbad. done.
Qed.

(** C8 at the payload ["high"]. *)
Lemma malformed_number_is_stored_witness :
  starts_with_integer "high" = false ∧
  lastQuality (app (step initial_world (Receive 1 (QualityChange "high"))).1) = NaN ∧
  lastFrameRate (app (step initial_world (Receive 1 (FrameRateChange "high"))).1) = NaN.
Proof.
  pose proof (malformed_number_is_stored initial_world 1%nat "high" eq_refl) as [Hq Hf].
  split; [reflexivity|]. split.
  - destruct (step initial_world (Receive 1 (QualityChange "high"))) as [w' out].
    exact (proj1 Hq).
  - destruct (step initial_world (Receive 1 (FrameRateChange "high"))) as [w' out].
    exact (proj1 Hf).
Defined.

(** ** C9: clipboard updates *)

(** C9: a clipboard update from connection [X] becomes the stored clipboard
    content and goes out once, to every connected socket other than [X] and
    not to [X]. *)
Theorem clipboard_no_self_echo (w : World) (X : SocketId) (content : string) :
  let '(w', out) := step w (Receive X (ClipboardData content)) in
  lastClipboardContent (app w') = content ∧
  out = [(now w, emit_of (ToOthers X) "clipboardData" (PStr content))] ∧
  (X ∉ recipients (sockets w') (ToOthers X)) ∧
  (∀ Y : SocketId, Y ∈ sockets w → Y ≠ X → Y ∈ recipients (sockets w') (ToOthers X)).
Proof.
  handler_unfold. simpl. split; [reflexivity|]. split; [reflexivity|].
  split.
  - rewrite elem_of_difference, elem_of_singleton. tauto.
  - intros Y HY HXY. rewrite elem_of_difference, elem_of_singleton. tauto.
Qed.

(** ** C10: the newest command reaches the device twice *)

(** C10: in any world the server reaches with a non-empty queue, the
    queue's newest entry carries the stored last word.  A device that
    identifies then is sent that word at once by the identify handler; and
    when no earlier drain is in flight and no other event comes between,
    the drain that follows ends by delivering the same word again: what the
    device receives on the text-command channel is the newest word, then
    every queued word in order, the newest being the last. *)
Theorem newest_command_delivered_twice (w : World) (device : SocketId) :
  reachable w → messageQueue (app w) ≠ [] →
  ∃ (words : list string) (newest : string),
    messageQueue (app w) = word_msg <$> (words ++ [newest]) ∧
    lastWord (app w) = newest ∧
    let '(w2, hydration) := step w (Receive device (Identify "macos")) in
    words_received device hydration = [PStr newest] ∧
    (timers w = [] →
     let '(w3, drain) := run_timers w2 in
     drain = paced_delivery (now w) device (S (length words)) 0 (words ++ [newest]) ∧
     last (words_received device drain) = Some (PStr newest) ∧
     words_received device (hydration ++ drain)
       = PStr newest :: (PStr <$> words) ++ [PStr newest]).
Proof.
  intros Hreach Hne.
  destruct (reachable_queue_inv w Hreach) as (Hq & _ & Hlast).
  specialize (Hlast Hne).
  destruct (Forall_is_word _ Hq) as [all Hall].
  destruct all as [|word all] using rev_ind; [by rewrite Hall in Hne|]. clear IHall.
  exists all, word.
  assert (Hnewest : lastWord (app w) = word).
  { rewrite Hall, fmap_app in Hlast. cbn [fmap list_fmap] in Hlast.
    rewrite last_snoc in Hlast. by injection Hlast. }
  split; [exact Hall|]. split; [exact Hnewest|].
  pose proof (identify_device_out w device) as Hout.
  destruct (step w (Receive device (Identify "macos"))) as [w2 hydration] eqn:Hstep.
  simpl in Hout. subst hydration.
  assert (Hhyd : words_received device
            [(now w, emit_of ToAll "statusUpdate" (mac_status "connected"));
             (now w, emit_of (ToSocket device) "wordToMac" (PStr (lastWord (app w))));
             (now w, emit_of (ToSocket device) "qualityChange" (PNum (lastQuality (app w))));
             (now w, emit_of (ToSocket device) "frameRateChange" (PNum (lastFrameRate (app w))))]
          = [PStr word]).
  { unfold words_received. simpl. rewrite bool_decide_eq_true_2 by done.
    simpl. by rewrite Hnewest. }
  split; [exact Hhyd|].
  intros Htimers. rewrite (identify_device w device Htimers) in Hstep.
  injection Hstep as <-.
  unfold run_timers. cbn [timers]. rewrite length_drain_timers, Hall, length_fmap.
  pose proof (fire_drain (now w) device (all ++ [word]) 0
                {| app := set_macUserSocketId (Some device) (app w);
                   sockets := sockets w;
                   timers := drain_timers (now w) 0 (word_msg <$> all ++ [word]);
                   now := now w |} eq_refl eq_refl) as Hfire.
  destruct (run _ (replicate (length (all ++ [word])) FireTimer)) as [w3 drain].
  destruct Hfire as (Hdrain & _).
  { simpl. by rewrite Hall, length_fmap. }
  { simpl. lia. }
  simpl in Hdrain. rewrite length_app in Hdrain. simpl in Hdrain.
  replace (length all + 1)%nat with (S (length all)) in Hdrain by lia.
  split; [exact Hdrain|].
  rewrite words_received_app, Hhyd, Hdrain, words_received_paced, fmap_app.
  cbn [fmap list_fmap]. split; [apply last_snoc | reflexivity].
Qed.

(** C10 at a world with two commands queued and no device. *)
Lemma newest_command_delivered_twice_witness :
  let w := (run initial_world
              [Connect 1; Receive 1 (Identify "web");
               Receive 1 (WordToMac "1% About"); Receive 1 (WordToMac "2% Back");
               Connect 2]).1 in
  messageQueue (app w) ≠ [] ∧
  ∃ (words : list string) (newest : string),
    messageQueue (app w) = word_msg <$> (words ++ [newest]) ∧
    lastWord (app w) = newest ∧
    let '(w2, hydration) := step w (Receive 2 (Identify "macos")) in
    words_received 2 hydration = [PStr newest] ∧
    (timers w = [] →
     let '(w3, drain) := run_timers w2 in
     drain = paced_delivery (now w) 2 (S (length words)) 0 (words ++ [newest]) ∧
     last (words_received 2 drain) = Some (PStr newest) ∧
     words_received 2 (hydration ++ drain)
       = PStr newest :: (PStr <$> words) ++ [PStr newest]).
Proof.
  assert (Hne : messageQueue (app (run initial_world
              [Connect 1; Receive 1 (Identify "web");
               Receive 1 (WordToMac "1% About"); Receive 1 (WordToMac "2% Back");
               Connect 2]).1) ≠ []) by (vm_compute; discriminate).
  split; [exact Hne|].
  exact (newest_command_delivered_twice _ 2%nat
           (reachable_run initial_world _ reachable_initial) Hne).
Defined.

(** * Further properties of the relay, the earlier server and the pages *)

(** ** The timers of a drain *)

Lemma fire_prefix (t0 : Z) (fired pending : list string) (i : nat) (w : World) :
  timers w = drain_timers t0 i (word_msg <$> fired ++ pending) →
  now w ≤ t0 + Z.of_nat i * 2500 →
  let '(w', out) := run w (replicate (length fired) FireTimer) in
  out = fired_log t0 (macUserSocketId (app w)) (length (messageQueue (app w))) i fired ∧
  app w' = (if clears (length (messageQueue (app w))) i (length fired)
            then set_messageQueue [] (app w) else app w) ∧
  timers w' = drain_timers t0 (i + length fired) (word_msg <$> pending) ∧
  sockets w' = sockets w ∧
  now w' ≤ t0 + Z.of_nat (i + length fired) * 2500.
Proof.
  revert i w. induction fired as [|word rest IH]; intros i w Htimers Hnow.
  - simpl. unfold clears. rewrite bool_decide_eq_false_2 by lia.
    rewrite Nat.add_0_r. repeat split; (done || lia).
  - simpl replicate. cbn [run].
    rewrite <- app_comm_cons, fmap_cons in Htimers. cbn [drain_timers] in Htimers.
    rewrite (fire_one w _ _ Htimers). cbv zeta. cbn [due timer_msg timer_index].
    rewrite Z.max_r by lia.
    replace (t0 + Z.of_nat i * 2500) with (t0 + 2500 * Z.of_nat i) by lia.
    set (len := length (messageQueue (app w))).
    destruct (Z.of_nat i =? Z.of_nat len - 1) eqn:Hlast.
    + apply Z.eqb_eq in Hlast.
      set (w1 := {| app := set_messageQueue [] (app w); sockets := sockets w;
                    timers := drain_timers t0 (S i) (word_msg <$> rest ++ pending);
                    now := t0 + 2500 * Z.of_nat i |}).
      specialize (IH (S i) w1 eq_refl).
      destruct (run w1 (replicate (length rest) FireTimer)) as [w' out].
      destruct IH as (Hout & Happ & Ht & Hs & Hn); [simpl; lia|].
      cbn [fired_log]. rewrite bool_decide_eq_true_2 by lia.
      simpl in Hout, Happ. unfold clears in *.
      rewrite bool_decide_eq_true_2 by (simpl; lia).
      subst out. repeat split; try done.
      * rewrite Ht. f_equal. simpl. lia.
      * simpl. simpl in Hn. lia.
    + apply Z.eqb_neq in Hlast.
      set (w1 := {| app := app w; sockets := sockets w;
                    timers := drain_timers t0 (S i) (word_msg <$> rest ++ pending);
                    now := t0 + 2500 * Z.of_nat i |}).
      specialize (IH (S i) w1 eq_refl).
      destruct (run w1 (replicate (length rest) FireTimer)) as [w' out].
      destruct IH as (Hout & Happ & Ht & Hs & Hn); [simpl; lia|].
      cbn [fired_log]. rewrite bool_decide_eq_false_2 by lia.
      simpl in Hout, Happ. fold len in Hout, Happ. unfold clears in *.
      subst out. repeat split; try done.
      * rewrite Happ. repeat case_bool_decide; simpl in *; try done; lia.
      * rewrite Ht. f_equal. simpl. lia.
      * simpl. simpl in Hn. lia.
Qed.

Lemma words_received_fired (t0 : Z) (device : SocketId) (len i : nat) (words : list string) :
  words_received device (fired_log t0 (Some device) len i words) = PStr <$> words.
Proof.
  revert len i. induction words as [|word rest IH]; intros len i; [done|].
  cbn [fired_log]. unfold words_received in *. cbn [omap list_omap].
  simpl. rewrite bool_decide_eq_true_2 by done. simpl.
  case_bool_decide; simpl; by rewrite IH.
Qed.

Lemma words_received_fired_nobody (t0 : Z) (who : SocketId) (len i : nat) (words : list string) :
  words_received who (fired_log t0 None len i words) = [].
Proof.
  revert len i. induction words as [|word rest IH]; intros len i; [done|].
  cbn [fired_log]. unfold words_received in *. cbn [omap list_omap].
  simpl. case_bool_decide; simpl; by rewrite IH.
Qed.

Lemma has_cleared_fired (t0 : Z) (room : option SocketId) (len i : nat) (words : list string) :
  has_cleared (fired_log t0 room len i words) = clears len i (length words).
Proof.
  unfold has_cleared, clears.
  revert len i. induction words as [|word rest IH]; intros len i.
  - simpl. by rewrite bool_decide_eq_false_2 by lia.
  - cbn [fired_log length existsb]. simpl.
    case_bool_decide as Hi; simpl.
    + by rewrite bool_decide_eq_true_2 by lia.
    + rewrite IH. apply bool_decide_ext. lia.
Qed.

Lemma queue_counts_fired_empty (t0 : Z) (room : option SocketId) (i : nat) (words : list string) :
  Forall (λ c, c < 0) (queue_counts (fired_log t0 room 0 i words)).
Proof.
  revert i. induction words as [|word rest IH]; intros i; [constructor|].
  cbn [fired_log]. unfold queue_counts in *. cbn [omap list_omap]. simpl.
  constructor; [lia|apply IH].
Qed.

(** The drain [k] timers in, while fewer than all have fired: the device is
    bound, the queue is still whole, and the timers from [k] on are pending. *)
Lemma drain_started_spec (w : World) (cmds : list (SocketId * string))
    (device : SocketId) (k : nat) :
  macUserSocketId (app w) = None → messageQueue (app w) = [] → timers w = [] →
  (k < length cmds)%nat →
  let w3 := drain_started w cmds device k in
  macUserSocketId (app w3) = Some device ∧
  messageQueue (app w3) = word_msg <$> cmds.*2 ∧
  timers w3 = drain_timers (now w) k (word_msg <$> drop k cmds.*2) ∧
  sockets w3 = sockets w ∧
  now w3 ≤ now w + Z.of_nat k * 2500.
Proof.
  intros Hmac Hqueue Htimers Hk w3.
  destruct (enqueue_run cmds w Hmac) as (Hq1 & Hm1 & Ht1 & Hn1 & Hs1).
  rewrite Hqueue in Hq1. simpl in Hq1. rewrite Htimers in Ht1.
  unfold w3, drain_started.
  rewrite (identify_device _ device Ht1). cbn [fst].
  rewrite Hq1, Hn1, Hs1.
  set (w2 := {| app := _; sockets := _; timers := _; now := _ |}).
  pose proof (fire_prefix (now w) (take k cmds.*2) (drop k cmds.*2) 0 w2) as Hfire.
  rewrite take_drop, length_take, Nat.min_l in Hfire by (rewrite length_fmap; lia).
  specialize (Hfire eq_refl ltac:(simpl; lia)).
  destruct (run w2 (replicate k FireTimer)) as [w' out].
  destruct Hfire as (_ & Happ & Ht & Hs & Hn).
  unfold clears in Happ. simpl in Happ. rewrite Hq1, !length_fmap in Happ.
  rewrite bool_decide_eq_false_2 in Happ by lia.
  simpl. rewrite Happ. simpl. repeat split; try done.
Qed.

(** All pending timers of a drain fire. *)
Lemma fire_rest (t0 : Z) (words : list string) (i : nat) (w : World) :
  timers w = drain_timers t0 i (word_msg <$> words) →
  now w ≤ t0 + Z.of_nat i * 2500 →
  let '(w', out) := run_timers w in
  out = fired_log t0 (macUserSocketId (app w)) (length (messageQueue (app w))) i words ∧
  app w' = (if clears (length (messageQueue (app w))) i (length words)
            then set_messageQueue [] (app w) else app w) ∧
  timers w' = [] ∧
  sockets w' = sockets w.
Proof.
  intros Htimers Hnow. unfold run_timers.
  rewrite Htimers, length_drain_timers, length_fmap.
  pose proof (fire_prefix t0 words [] i w) as Hfire.
  rewrite app_nil_r in Hfire. specialize (Hfire Htimers Hnow).
  destruct (run w (replicate (length words) FireTimer)) as [w' out].
  destruct Hfire as (Hout & Happ & Ht & Hs & _). done.
Qed.

Lemma twice_app {A : Type} (a b : list A) : twice (a ++ b) = twice a ++ twice b.
Proof. induction a as [|x a IH]; simpl; [done|]. by rewrite IH. Qed.

Lemma Forall_twice {A : Type} (P : A → Prop) (l : list A) :
  Forall P l → Forall P (twice l).
Proof. induction 1; simpl; repeat constructor; auto. Qed.

Lemma run_timers_log (w : World) :
  let '(w', out) := run_timers w in
  out = timers_log (macUserSocketId (app w)) (length (messageQueue (app w))) (now w) (timers w) ∧
  length (messageQueue (app w')) = timers_leave (length (messageQueue (app w))) (timers w) ∧
  (timers_leave (length (messageQueue (app w))) (timers w) = length (messageQueue (app w)) →
   app w' = app w) ∧
  macUserSocketId (app w') = macUserSocketId (app w) ∧
  timers w' = [] ∧
  sockets w' = sockets w.
Proof.
  unfold run_timers.
  remember (timers w) as pending eqn:Hp. revert w Hp.
  induction pending as [|t rest IH]; intros w Hp.
  - simpl. rewrite <- Hp. done.
  - simpl replicate. cbn [run].
    rewrite (fire_one w t rest (eq_sym Hp)). cbv zeta.
    set (len := length (messageQueue (app w))).
    destruct (Z.of_nat (timer_index t) =? Z.of_nat len - 1) eqn:Hlast.
    + apply Z.eqb_eq in Hlast.
      set (w1 := {| app := set_messageQueue [] (app w); sockets := sockets w;
                    timers := rest; now := Z.max (now w) (due t) |}).
      specialize (IH w1 eq_refl).
      destruct (run w1 (replicate (length rest) FireTimer)) as [w' out].
      destruct IH as (Hout & Hlen & Happ & Hmac & Ht & Hs).
      cbn [timers_log timers_leave]. rewrite !bool_decide_eq_true_2 by lia.
      simpl in Hout, Hlen, Hmac, Hs. subst out.
      repeat split; try done.
      intros Hsame. exfalso.
      assert (Hz : ∀ l, timers_leave 0 l = 0%nat).
      { clear. induction l as [|x l IHl]; simpl; done. }
      rewrite Hz in Hsame. lia.
    + apply Z.eqb_neq in Hlast.
      set (w1 := {| app := app w; sockets := sockets w;
                    timers := rest; now := Z.max (now w) (due t) |}).
      specialize (IH w1 eq_refl).
      destruct (run w1 (replicate (length rest) FireTimer)) as [w' out].
      destruct IH as (Hout & Hlen & Happ & Hmac & Ht & Hs).
      cbn [timers_log timers_leave]. rewrite !bool_decide_eq_false_2 by lia.
      simpl in Hout, Hlen, Happ, Hmac, Hs. fold len in Hout, Hlen, Happ. subst out.
      repeat split; done.
Qed.

Lemma words_received_timers_log (device : SocketId) (len : nat) (clock : Z)
    (pending : list Timer) :
  Forall (λ t, is_word (timer_msg t)) pending →
  words_received device (timers_log (Some device) len clock pending)
  = (λ t, data (timer_msg t)) <$> pending.
Proof.
  intros Hw. revert len clock.
  induction Hw as [|t rest [word Ht] _ IH]; intros len clock; [done|].
  cbn [timers_log]. rewrite fmap_cons, Ht. unfold words_received in *.
  cbn [omap list_omap]. simpl. rewrite bool_decide_eq_true_2 by done. simpl.
  f_equal. case_bool_decide; simpl; apply IH.
Qed.

Lemma words_received_timers_log_other (who device : SocketId) (len : nat) (clock : Z)
    (pending : list Timer) :
  who ≠ device →
  words_received who (timers_log (Some device) len clock pending) = [].
Proof.
  intros Hne. revert len clock.
  induction pending as [|t rest IH]; intros len clock; [done|].
  cbn [timers_log]. unfold words_received in *.
  cbn [omap list_omap]. simpl.
  rewrite (bool_decide_eq_false_2 (Some device = Some who)) by congruence.
  rewrite andb_false_r.
  case_bool_decide; simpl; apply IH.
Qed.

Lemma add_timer_mid (t : Timer) (pre post : list Timer) :
  Forall (λ p, due p ≤ due t) pre →
  match post with [] => True | p :: _ => due t < due p end →
  add_timer t (pre ++ post) = pre ++ t :: post.
Proof.
  induction 1 as [|p pre Hp Hpre IH]; intros Hpost; simpl.
  - destruct post as [|p post]; [done|]. simpl.
    destruct (due p <=? due t) eqn:E; [apply Z.leb_le in E; lia | done].
  - destruct (due p <=? due t) eqn:E; [by rewrite IH|]. apply Z.leb_gt in E. lia.
Qed.

Lemma drain_timers_due (t0 : Z) (i : nat) (queue : list Msg) :
  Forall (λ p, t0 + Z.of_nat i * 2500 ≤ due p) (drain_timers t0 i queue).
Proof.
  revert i. induction queue as [|msg rest IH]; intros i; simpl; constructor; [simpl; lia|].
  eapply Forall_impl; [apply IH|]. simpl. intros p Hp. lia.
Qed.

Lemma drain_timers_due_below (t0 : Z) (queue : list Msg) :
  Forall (λ p, due p < t0 + Z.of_nat (length queue) * 2500) (drain_timers t0 0 queue).
Proof.
  induction queue as [|msg rest IH] using rev_ind; [constructor|].
  assert (Happ : ∀ i a b, drain_timers t0 i (a ++ b)
                 = drain_timers t0 i a ++ drain_timers t0 (i + length a) b).
  { clear. intros i a. revert i. induction a as [|x a IHa]; intros i b; simpl.
    - by rewrite Nat.add_0_r.
    - rewrite IHa. do 3 f_equal. lia. }
  rewrite Happ, length_app. simpl. apply Forall_app_2.
  - eapply Forall_impl; [apply IH|]. simpl. intros p Hp. lia.
  - constructor; [simpl; lia|constructor].
Qed.

Lemma drain_timers_app (t0 : Z) (i : nat) (a b : list Msg) :
  drain_timers t0 i (a ++ b) = drain_timers t0 i a ++ drain_timers t0 (i + length a) b.
Proof.
  revert i. induction a as [|x a IHa]; intros i; simpl.
  - by rewrite Nat.add_0_r.
  - rewrite IHa. do 3 f_equal. lia.
Qed.

(** Scheduling a drain for a queue whose drain is already pending, at the
    same time: each new timer lands right behind its twin. *)
Lemma perform_schedule_twice (clock : Z) (done_ rest : list Msg) :
  perform clock (schedule_log (length done_) rest)
    (twice (drain_timers clock 0 done_) ++ drain_timers clock (length done_) rest)
  = (twice (drain_timers clock 0 (done_ ++ rest)), []).
Proof.
  revert done_. induction rest as [|msg rest IH]; intros done_.
  - simpl. by rewrite !app_nil_r.
  - cbn [schedule_log perform drain_timers].
    set (t := {| due := clock + Z.of_nat (length done_) * 2500;
                 timer_msg := msg; timer_index := length done_ |}).
    replace (twice (drain_timers clock 0 done_) ++ t :: drain_timers clock (S (length done_)) rest)
      with ((twice (drain_timers clock 0 done_) ++ [t]) ++ drain_timers clock (S (length done_)) rest)
      by (by rewrite <- app_assoc).
    rewrite add_timer_mid.
    + specialize (IH (done_ ++ [msg])).
      rewrite length_app in IH. simpl in IH.
      replace (length done_ + 1)%nat with (S (length done_)) in IH by lia.
      rewrite <- (app_assoc done_ [msg] rest) in IH. simpl in IH.
      rewrite <- IH. f_equal.
      rewrite drain_timers_app, twice_app. simpl.
      fold t. rewrite <- !app_assoc. done.
    + apply Forall_app_2; [|constructor; [simpl; lia|constructor]].
      apply Forall_twice.
      eapply Forall_impl; [apply drain_timers_due_below|].
      simpl. intros p Hp. lia.
    + pose proof (drain_timers_due clock (S (length done_)) rest) as Hd.
      destruct (drain_timers clock (S (length done_)) rest) as [|p ps]; [done|].
      apply Forall_cons in Hd as [Hd _]. simpl. lia.
Qed.

Lemma timers_leave_twice (t0 : Z) (i : nat) (words : list string) :
  timers_leave (i + length words) (twice (drain_timers t0 i (word_msg <$> words)))
  = match words with [] => i | _ :: _ => 0%nat end.
Proof.
  revert i. induction words as [|word rest IH]; intros i.
  - simpl. lia.
  - rewrite fmap_cons. cbn [drain_timers twice timers_leave timer_index].
    destruct rest as [|word' rest'].
    + replace (i + length [word])%nat with (S i) by (simpl; lia).
      simpl. rewrite !(bool_decide_eq_true_2 (S i = S i)) by done. done.
    + rewrite !(bool_decide_eq_false_2 (S i = (i + length (word :: word' :: rest'))%nat))
        by (simpl; lia).
      specialize (IH (S i)).
      replace (S i + length (word' :: rest'))%nat
        with (i + length (word :: word' :: rest'))%nat in IH by (simpl; lia).
      exact IH.
Qed.

Lemma twice_drain_timers_words (t0 : Z) (i : nat) (words : list string) :
  Forall (λ t, is_word (timer_msg t)) (twice (drain_timers t0 i (word_msg <$> words))) ∧
  (λ t, data (timer_msg t)) <$> twice (drain_timers t0 i (word_msg <$> words))
  = twice (PStr <$> words).
Proof.
  revert i. induction words as [|word rest IH]; intros i.
  - split; [constructor|done].
  - destruct (IH (S i)) as [IH1 IH2].
    rewrite !fmap_cons. cbn [drain_timers twice]. split.
    + repeat (constructor; [by exists word|]). exact IH1.
    + rewrite !fmap_cons, IH2. done.
Qed.

(** ** Numerals and [parseInt] *)

Lemma read_digits_uint (d : Decimal.uint) (acc : option nat) (rest : string) :
  no_digit_ahead rest →
  read_digits (String.append (DecimalString.NilEmpty.string_of_uint d) rest) (Z.of_nat <$> acc)
  = match d with
    | Decimal.Nil => Z.of_nat <$> acc
    | _ => Some (Z.of_nat (Nat.of_uint_acc d (default 0%nat acc)))
    end.
Proof.
  intros Hrest. revert acc.
  assert (Hstop : ∀ a, read_digits rest a = a).
  { intros a. destruct rest as [|c rest]; [done|]. simpl in *. by rewrite Hrest. }
  assert (Hacc : ∀ (acc : option nat) (k : nat),
            Some (10 * default 0 (Z.of_nat <$> acc) + Z.of_nat k)
            = Z.of_nat <$> Some (k + 10 * default 0%nat acc)%nat).
  { intros [a|] k; simpl; f_equal; lia. }
  induction d as [|d IH|d IH|d IH|d IH|d IH|d IH|d IH|d IH|d IH|d IH]; intros acc.
  - simpl. apply Hstop.
  - simpl. change (digit_value "0") with (Z.of_nat 0).
    rewrite Hacc, IH. rewrite Nat.tail_mul_spec. destruct d; simpl; f_equal.
  - simpl. change (digit_value "1") with (Z.of_nat 1).
    rewrite Hacc, IH. rewrite Nat.tail_mul_spec. destruct d; simpl; f_equal.
  - simpl. change (digit_value "2") with (Z.of_nat 2).
    rewrite Hacc, IH. rewrite Nat.tail_mul_spec. destruct d; simpl; f_equal.
  - simpl. change (digit_value "3") with (Z.of_nat 3).
    rewrite Hacc, IH. rewrite Nat.tail_mul_spec. destruct d; simpl; f_equal.
  - simpl. change (digit_value "4") with (Z.of_nat 4).
    rewrite Hacc, IH. rewrite Nat.tail_mul_spec. destruct d; simpl; f_equal.
  - simpl. change (digit_value "5") with (Z.of_nat 5).
    rewrite Hacc, IH. rewrite Nat.tail_mul_spec. destruct d; simpl; f_equal.
  - simpl. change (digit_value "6") with (Z.of_nat 6).
    rewrite Hacc, IH. rewrite Nat.tail_mul_spec. destruct d; simpl; f_equal.
  - simpl. change (digit_value "7") with (Z.of_nat 7).
    rewrite Hacc, IH. rewrite Nat.tail_mul_spec. destruct d; simpl; f_equal.
  - simpl. change (digit_value "8") with (Z.of_nat 8).
    rewrite Hacc, IH. rewrite Nat.tail_mul_spec. destruct d; simpl; f_equal.
  - simpl. change (digit_value "9") with (Z.of_nat 9).
    rewrite Hacc, IH. rewrite Nat.tail_mul_spec. destruct d; simpl; f_equal.
Qed.

Lemma to_uint_not_Nil (n : nat) : Nat.to_uint n ≠ Decimal.Nil.
Proof.
  pose proof (DecimalNat.Unsigned.to_of (Nat.to_uint n)) as H.
  rewrite DecimalNat.Unsigned.of_to in H. rewrite H.
  unfold Decimal.unorm. by destruct (Decimal.nzhead (Nat.to_uint n)).
Qed.

Lemma decimal_head (n : nat) :
  ∃ c s, decimal n = String c s ∧ is_digit c = true.
Proof.
  unfold decimal. pose proof (to_uint_not_Nil n) as H.
  destruct (Nat.to_uint n); [done| | | | | | | | | |]; simpl; eexists _, _; split; reflexivity.
Qed.

Lemma is_digit_not_white_space (c : ascii) :
  is_digit c = true → is_white_space c = false ∧ c ≠ "+"%char ∧ c ≠ "-"%char.
Proof.
  unfold is_digit, is_white_space. cbv zeta. intros H.
  apply andb_true_iff in H as [H1%Nat.leb_le H2%Nat.leb_le].
  split; [|split]; [|intros ->; vm_compute in H1; lia|intros ->; vm_compute in H1; lia].
  revert H1 H2. generalize (nat_of_ascii c). intros n H1 H2.
  - apply orb_false_iff; split; [apply orb_false_iff; split|].
    + apply andb_false_iff; right. apply Nat.leb_gt. lia.
    + apply Nat.eqb_neq. lia.
    + apply Nat.eqb_neq. lia.
Qed.

Lemma skip_white_space_app (ws s : string) :
  all_white_space ws = true →
  match s with String c _ => is_white_space c = false | EmptyString => True end →
  skip_white_space (String.append ws s) = s.
Proof.
  intros Hws Hs. induction ws as [|c ws IH]; simpl in *.
  - destruct s; [done|]. simpl. by rewrite Hs.
  - apply andb_true_iff in Hws as [Hc Hws]. rewrite Hc. by apply IH.
Qed.

Lemma read_digits_decimal (n : nat) (rest : string) :
  no_digit_ahead rest →
  read_digits (String.append (decimal n) rest) None = Some (Z.of_nat n).
Proof.
  intros Hrest. unfold decimal.
  pose proof (read_digits_uint (Nat.to_uint n) None rest Hrest) as H.
  simpl in H. rewrite H.
  pose proof (to_uint_not_Nil n) as Hnil.
  pose proof (DecimalNat.Unsigned.of_to n) as Hof. unfold Nat.of_uint in Hof.
  destruct (Nat.to_uint n); [done| | | | | | | | | |]; by rewrite Hof.
Qed.

Lemma parseInt_unsigned (c : ascii) (s : string) :
  is_digit c = true →
  parseInt (String c s)
  = match read_digits (String c s) None with
    | Some n => Num (1 * n)
    | None => NaN
    end.
Proof.
  intros Hc. destruct (is_digit_not_white_space c Hc) as (Hcw & Hplus & Hminus).
  unfold parseInt. cbn [skip_white_space]. rewrite Hcw. clear Hc Hcw.
  destruct c as [[] [] [] [] [] [] [] []]; try reflexivity; by exfalso; auto.
Qed.

Lemma parseInt_prefix (ws s : string) :
  all_white_space ws = true → parseInt (String.append ws s) = parseInt s.
Proof.
  intros Hws. unfold parseInt.
  replace (skip_white_space (String.append ws s)) with (skip_white_space s); [done|].
  induction ws as [|c ws IH]; simpl in *; [done|].
  apply andb_true_iff in Hws as [Hc Hws]. rewrite Hc. by apply IH.
Qed.

(** [parseInt] reads a numeral: white space, an optional sign, the decimal
    digits of [n], and then anything that does not go on with a digit. *)
Lemma parseInt_numeral (ws : string) (s : Sign) (n : nat) (rest : string) :
  all_white_space ws = true → no_digit_ahead rest →
  parseInt (String.append ws (String.append (sign_text s) (String.append (decimal n) rest)))
  = Num (sign_factor s * Z.of_nat n).
Proof.
  intros Hws Hrest. rewrite parseInt_prefix by exact Hws.
  pose proof (read_digits_decimal n rest Hrest) as Hread.
  destruct s; simpl sign_text; simpl sign_factor.
  - destruct (decimal_head n) as (c & tail & Hdec & Hc).
    rewrite Hdec in *.
    change (parseInt (String c (String.append tail rest)) = Num (1 * Z.of_nat n)).
    change (read_digits (String c (String.append tail rest)) None = Some (Z.of_nat n)) in Hread.
    rewrite parseInt_unsigned by exact Hc. by rewrite Hread.
  - change (parseInt (String "+" (String.append (decimal n) rest)) = Num (1 * Z.of_nat n)).
    unfold parseInt. cbn [skip_white_space].
    change (is_white_space "+") with false. cbv iota beta. by rewrite Hread.
  - change (parseInt (String "-" (String.append (decimal n) rest)) = Num (-1 * Z.of_nat n)).
    unfold parseInt. cbn [skip_white_space].
    change (is_white_space "-") with false. cbv iota beta. by rewrite Hread.
Qed.

Lemma string_append_nil_r (s : string) : String.append s EmptyString = s.
Proof. induction s as [|c s IH]; [done|]. change (String c (String.append s EmptyString) = String c s). by rewrite IH. Qed.

Lemma parseInt_decimal (n : nat) : parseInt (decimal n) = Num (Z.of_nat n).
Proof.
  pose proof (parseInt_numeral EmptyString NoSign n EmptyString eq_refl I) as H.
  change (parseInt (String.append (decimal n) EmptyString) = Num (1 * Z.of_nat n)) in H.
  rewrite string_append_nil_r in H. rewrite H. f_equal. lia.
Qed.

(** ** The earlier server *)

Lemma agree_step (w wl : World) (s : Step) :
  agree w wl → agree (step w s).1 (LegacyServer.step wl s).1.
Proof.
  unfold agree. intros (Hc & He & Hw & Hq & Hf & Hm & Hs).
  destruct s as [socket|socket e|socket| |ms].
  - simpl. by rewrite Hs.
  - destruct e; handler_unfold; legacy_unfold; simpl.
    + destruct (String.eqb type0 "macos"); simpl.
      * destruct (0 <? messageQueue_length _); simpl; [|done].
        unfold forEach. rewrite forEach_from_setTimeout. simpl.
        by destruct (perform _ _ _).
      * destruct (0 <? messageQueue_length _); simpl; done.
    + done.
    + done.
    + done.
    + rewrite <- Hm.
      destruct (truthy (macUserSocketId (app w)) && _); destruct (truthy _); simpl; done.
    + rewrite <- Hm. destruct (truthy _); simpl; done.
    + rewrite <- Hm. destruct (truthy _); simpl; done.
    + done.
  - handler_unfold; legacy_unfold; simpl. rewrite <- Hm, Hs.
    case_bool_decide; simpl; done.
  - handler_unfold. simpl. destruct (timers w) as [|t rest]; simpl; [done|].
    destruct (Z.of_nat (timer_index t) =? _); simpl; done.
  - done.
Qed.

(** ** The status displays of the viewer page *)

Section ViewerPageProperties.

Import ViewerPage.

Lemma watch_app (who : SocketId) (out1 out2 : list (Z * Emit)) (p : Page) :
  watch who (out1 ++ out2) p = watch who out2 (watch who out1 p).
Proof. unfold watch, statusUpdates_received. by rewrite omap_app, foldl_app. Qed.

Lemma watch_queued (who : SocketId) (t : Z) (n : nat) (p : Page) :
  (0 < n)%nat →
  badge_shows n
    (watch who [(t, emit_of ToAll "statusUpdate" (queue_status "queued" (Some (Z.of_nat n))))] p).
Proof.
  intros Hn. unfold watch, badge_shows. simpl. unfold on_statusUpdate, count_positive. simpl.
  destruct (0 <? Z.of_nat n) eqn:Hpos; [|apply Z.ltb_ge in Hpos; lia]. simpl.
  unfold queued_text, Number_toString.
  destruct (Z.of_nat n <? 0) eqn:Hneg; [apply Z.ltb_lt in Hneg; lia|].
  by rewrite Nat2Z.id.
Qed.

Lemma watch_cons (who : SocketId) (o : Z * Emit) (out : list (Z * Emit)) (p : Page) :
  watch who (o :: out) p = watch who out (watch who [o] p).
Proof. apply (watch_app who [o] out). Qed.


Lemma watch_other_channel (who : SocketId) (t : Z) (tgt : Target) (ch : string)
    (pl : Payload) (p : Page) :
  ch ≠ "statusUpdate" → watch who [(t, emit_of tgt ch pl)] p = p.
Proof.
  intros Hch. unfold watch, statusUpdates_received. simpl.
  by rewrite bool_decide_eq_false_2.
Qed.

Lemma watch_queued_zero (who : SocketId) (t : Z) (tgt : Target) (p : Page) :
  watch who [(t, emit_of tgt "statusUpdate" (queue_status "queued" (Some 0)))] p = p.
Proof.
  unfold watch, statusUpdates_received. simpl.
  destruct (reaches who tgt); reflexivity.
Qed.

Lemma watch_cleared (who : SocketId) (t : Z) (p : Page) :
  queueStatus_hidden
    (watch who [(t, emit_of ToAll "statusUpdate" (queue_status "cleared" None))] p) = true.
Proof. reflexivity. Qed.

(** The page after the timers of a drain with indices [i .. i + n - 1]
    fired, the queue holding [len] entries with [i + n ≤ len]. *)
Lemma watch_fired (who : SocketId) (t0 : Z) (room : option SocketId) (len i : nat)
    (words : list string) (p : Page) :
  words ≠ [] → (i + length words ≤ len)%nat →
  if bool_decide (i + length words = len)%nat
  then queueStatus_hidden (watch who (fired_log t0 room len i words) p) = true
  else badge_shows (len - i - length words) (watch who (fired_log t0 room len i words) p).
Proof.
  revert i p. induction words as [|word rest IH]; intros i p Hne Hlen; [done|].
  cbn [fired_log]. rewrite watch_cons, watch_other_channel by done.
  rewrite watch_cons. simpl in Hlen.
  destruct rest as [|word' rest'].
  - simpl. case_bool_decide as Hlast.
    + rewrite bool_decide_eq_true_2 by lia.
      replace (Z.of_nat len - Z.of_nat i - 1) with 0 by lia.
      rewrite watch_queued_zero. apply watch_cleared.
    + rewrite bool_decide_eq_false_2 by lia.
      replace (Z.of_nat len - Z.of_nat i - 1) with (Z.of_nat (len - i - 1)) by lia.
      apply watch_queued. lia.
  - rewrite (bool_decide_eq_false_2 (S i = len)) by (simpl in Hlen; lia).
    specialize (IH (S i) (watch who
      [(t0 + 2500 * Z.of_nat i,
        emit_of ToAll "statusUpdate"
          (queue_status "queued" (Some (Z.of_nat len - Z.of_nat i - 1))))] p)
      ltac:(done) ltac:(simpl in *; lia)).
    replace (i + length (word :: word' :: rest'))%nat
      with (S i + length (word' :: rest'))%nat by (simpl; lia).
    replace (len - i - length (word :: word' :: rest'))%nat
      with (len - S i - length (word' :: rest'))%nat by (simpl; lia).
    exact IH.
Qed.

End ViewerPageProperties.


(** * Properties beyond the claims *)

(** ** The drain under interleaving *)

(** X1: the device's connection closes after [k] of the [N] queued commands
    were delivered.  The timers of the drain stay pending and still fire:
    the remaining commands are emitted to the room of no socket, so nobody
    receives them, and the last timer empties the queue all the same and
    announces it cleared.  The commands from position [k] on are lost. *)
Theorem device_close_mid_drain_loses_commands (w : World)
    (cmds : list (SocketId * string)) (device : SocketId) (k : nat) :
  macUserSocketId (app w) = None → messageQueue (app w) = [] → timers w = [] →
  (k < length cmds)%nat →
  let w3 := drain_started w cmds device k in
  let '(w4, closing) := step w3 (Close device) in
  let '(w5, out) := run_timers w4 in
  closing = [(now w3, emit_of ToAll "statusUpdate" (mac_status "disconnected"))] ∧
  messageQueue (app w4) = word_msg <$> cmds.*2 ∧
  out = fired_log (now w) None (length cmds) k (drop k cmds.*2) ∧
  (∀ who, words_received who out = []) ∧
  has_cleared out = true ∧
  messageQueue (app w5) = [] ∧
  timers w5 = [] ∧
  macUserSocketId (app w5) = None.
Proof.
  intros Hmac Hqueue Htimers Hk w3.
  destruct (drain_started_spec w cmds device k Hmac Hqueue Htimers Hk)
    as (Hm3 & Hq3 & Ht3 & Hs3 & Hn3).
  fold w3 in Hm3, Hq3, Ht3, Hs3, Hn3.
  assert (Hclose : step w3 (Close device)
            = ({| app := set_macUserSocketId None (app w3);
                  sockets := sockets w3 ∖ {[device]};
                  timers := timers w3; now := now w3 |},
               [(now w3, emit_of ToAll "statusUpdate" (mac_status "disconnected"))])).
  { handler_unfold. simpl. rewrite Hm3. by rewrite bool_decide_eq_true_2. }
  rewrite Hclose.
  set (w4 := {| app := _; sockets := _; timers := _; now := _ |}).
  pose proof (fire_rest (now w) (drop k cmds.*2) k w4 Ht3 Hn3) as Hfire.
  destruct (run_timers w4) as [w5 out].
  destruct Hfire as (Hout & Happ & Ht5 & _).
  simpl in Hout, Happ. rewrite Hq3, !length_fmap in Hout, Happ.
  unfold clears in Happ. rewrite length_drop, !length_fmap in Happ.
  rewrite bool_decide_eq_true_2 in Happ by lia.
  split; [done|]. split; [exact Hq3|]. split; [exact Hout|].
  split; [intros who; rewrite Hout; apply words_received_fired_nobody|].
  split.
  { rewrite Hout, has_cleared_fired. unfold clears.
    rewrite length_drop, !length_fmap. apply bool_decide_eq_true_2. lia. }
  rewrite Happ. done.
Qed.

Lemma device_close_mid_drain_loses_commands_witness :
  let cmds := [(1%nat, "1% About"); (1%nat, "2% Back"); (1%nat, "3% Next")] in
  macUserSocketId (app initial_world) = None ∧ messageQueue (app initial_world) = [] ∧
  timers initial_world = [] ∧ (1 < length cmds)%nat ∧
  let '(w4, closing) := step (drain_started initial_world cmds 2 1) (Close 2) in
  let '(w5, out) := run_timers w4 in
  (∀ who, words_received who out = []) ∧ messageQueue (app w5) = [].
Proof.
  do 3 (split; [reflexivity|]). split; [simpl; lia|].
  pose proof (device_close_mid_drain_loses_commands initial_world
                [(1%nat, "1% About"); (1%nat, "2% Back"); (1%nat, "3% Next")] 2%nat 1%nat
                eq_refl eq_refl eq_refl ltac:(simpl; lia)) as H.
  cbv zeta in H.
  destruct (step _ (Close 2)) as [w4 closing].
  destruct (run_timers w4) as [w5 out].
  destruct H as (_ & _ & _ & Hnobody & _ & Hq & _). done.
Defined.

(** X2: a text command [word] arrives [k] timers into a drain of [N]
    commands.  It is queued behind them (the queue is not empty), and no
    timer exists for it.  When the remaining timers have fired, the device
    has received the old commands only; no timer found itself last in the
    longer queue, so the queue was never emptied nor announced cleared: it
    still holds all [N] old commands and the new one, with a device bound,
    and the next text command is queued as well. *)
Theorem command_during_drain_is_stuck (w : World) (cmds : list (SocketId * string))
    (device sender : SocketId) (k : nat) (word next : string) :
  macUserSocketId (app w) = None → messageQueue (app w) = [] → timers w = [] →
  (k < length cmds)%nat →
  let w3 := drain_started w cmds device k in
  let '(w4, queued) := step w3 (Receive sender (WordToMac word)) in
  let '(w5, out) := run_timers w4 in
  queued = [(now w3, emit_of ToAll "statusUpdate"
                       (queue_status "queued" (Some (Z.of_nat (length cmds) + 1))))] ∧
  out = fired_log (now w) (Some device) (S (length cmds)) k (drop k cmds.*2) ∧
  words_received device (queued ++ out) = PStr <$> drop k cmds.*2 ∧
  has_cleared out = false ∧
  macUserSocketId (app w5) = Some device ∧
  timers w5 = [] ∧
  messageQueue (app w5) = word_msg <$> (cmds.*2 ++ [word]) ∧
  messageQueue (app (step w5 (Receive sender (WordToMac next))).1)
    = word_msg <$> (cmds.*2 ++ [word; next]).
Proof.
  intros Hmac Hqueue Htimers Hk w3.
  destruct (drain_started_spec w cmds device k Hmac Hqueue Htimers Hk)
    as (Hm3 & Hq3 & Ht3 & Hs3 & Hn3).
  fold w3 in Hm3, Hq3, Ht3, Hs3, Hn3.
  assert (Hlen : length cmds.*2 = length cmds) by apply length_fmap.
  assert (Hne : (Z.of_nat (length (word_msg <$> cmds.*2)) =? 0) = false).
  { apply Z.eqb_neq. rewrite length_fmap. lia. }
  assert (Hstep : step w3 (Receive sender (WordToMac word))
            = ({| app := set_messageQueue (word_msg <$> (cmds.*2 ++ [word]))
                           (set_lastWord word (app w3));
                  sockets := sockets w3; timers := timers w3; now := now w3 |},
               [(now w3, emit_of ToAll "statusUpdate"
                           (queue_status "queued" (Some (Z.of_nat (length cmds) + 1))))])).
  { handler_unfold. unfold messageQueue_length, messageQueue_push. simpl.
    rewrite Hm3, Hq3, Hne. simpl. rewrite !Hq3, fmap_app, length_app, !length_fmap. simpl.
    unfold emit_of. repeat f_equal. lia. }
  rewrite Hstep.
  set (w4 := {| app := _; sockets := _; timers := _; now := _ |}).
  pose proof (fire_rest (now w) (drop k cmds.*2) k w4 Ht3 Hn3) as Hfire.
  destruct (run_timers w4) as [w5 out].
  destruct Hfire as (Hout & Happ & Ht5 & _).
  simpl in Hout, Happ. rewrite Hm3 in Hout.
  rewrite length_fmap, length_app, Hlen in Hout, Happ. simpl in Hout, Happ.
  replace (length cmds + 1)%nat with (S (length cmds)) in Hout, Happ by lia.
  unfold clears in Happ. rewrite length_drop, Hlen in Happ.
  rewrite bool_decide_eq_false_2 in Happ by lia.
  split; [done|]. split; [exact Hout|].
  split.
  { rewrite words_received_app, Hout, words_received_fired. done. }
  split.
  { rewrite Hout, has_cleared_fired. unfold clears.
    rewrite length_drop, Hlen. apply bool_decide_eq_false_2. lia. }
  rewrite Happ. simpl. split; [exact Hm3|]. split; [exact Ht5|]. split; [done|].
  destruct w5 as [st5 s5 t5 n5]. simpl in Happ. subst st5.
  handler_unfold. unfold messageQueue_length, messageQueue_push. simpl.
  rewrite Hm3. simpl.
  replace (Z.of_nat (length (word_msg <$> cmds.*2 ++ [word])) =? 0) with false
    by (symmetry; apply Z.eqb_neq; rewrite length_fmap, length_app; simpl; lia).
  simpl. rewrite !fmap_app, <- app_assoc. done.
Qed.

Lemma command_during_drain_is_stuck_witness :
  let cmds := [(1%nat, "1% About"); (1%nat, "2% Back")] in
  macUserSocketId (app initial_world) = None ∧ messageQueue (app initial_world) = [] ∧
  timers initial_world = [] ∧ (1 < length cmds)%nat ∧
  let '(w4, queued) := step (drain_started initial_world cmds 2 1) (Receive 1 (WordToMac "3% Next")) in
  let '(w5, out) := run_timers w4 in
  words_received 2 (queued ++ out) = [PStr "2% Back"] ∧
  messageQueue (app w5) = word_msg <$> ["1% About"; "2% Back"; "3% Next"].
Proof.
  do 3 (split; [reflexivity|]). split; [simpl; lia|].
  pose proof (command_during_drain_is_stuck initial_world
                [(1%nat, "1% About"); (1%nat, "2% Back")] 2%nat 1%nat 1%nat
                "3% Next" "4% Exit"
                eq_refl eq_refl eq_refl ltac:(simpl; lia)) as H.
  cbv zeta in H.
  destruct (step _ (Receive 1 (WordToMac "3% Next"))) as [w4 queued].
  destruct (run_timers w4) as [w5 out].
  destruct H as (_ & _ & Hrecv & _ & _ & _ & Hq & _). done.
Defined.

(** X3: a viewer identifies [k] timers into a drain of [N] commands.  Its
    identification empties the queue, but the timers of the drain stay
    pending: every remaining command is still delivered to the device.  Each
    of those timers reads the empty queue, so the queue-depth statuses it
    sends carry negative counts, and none of them announces the queue
    cleared. *)
Theorem viewer_identify_mid_drain (w : World) (cmds : list (SocketId * string))
    (device viewer : SocketId) (k : nat) (type : string) :
  macUserSocketId (app w) = None → messageQueue (app w) = [] → timers w = [] →
  (k < length cmds)%nat → type ≠ "macos" →
  let w3 := drain_started w cmds device k in
  let '(w4, hydration) := step w3 (Receive viewer (Identify type)) in
  let '(w5, out) := run_timers w4 in
  messageQueue (app w4) = [] ∧
  timers w4 = timers w3 ∧
  out = fired_log (now w) (Some device) 0 k (drop k cmds.*2) ∧
  words_received device out = PStr <$> drop k cmds.*2 ∧
  Forall (λ c, c < 0) (queue_counts out) ∧
  has_cleared out = false ∧
  messageQueue (app w5) = [] ∧
  timers w5 = [].
Proof.
  intros Hmac Hqueue Htimers Hk Hty w3.
  destruct (drain_started_spec w cmds device k Hmac Hqueue Htimers Hk)
    as (Hm3 & Hq3 & Ht3 & Hs3 & Hn3).
  fold w3 in Hm3, Hq3, Ht3, Hs3, Hn3.
  assert (Hlen : length cmds.*2 = length cmds) by apply length_fmap.
  assert (Hstep : ∃ hydration, step w3 (Receive viewer (Identify type))
            = ({| app := set_messageQueue [] (app w3);
                  sockets := sockets w3; timers := timers w3; now := now w3 |},
               hydration)).
  { handler_unfold.
    destruct (String.eqb type "macos") eqn:E; [apply String.eqb_eq in E; done|].
    unfold messageQueue_length. simpl. rewrite Hq3.
    replace (0 <? Z.of_nat (length (word_msg <$> cmds.*2))) with true
      by (symmetry; apply Z.ltb_lt; rewrite length_fmap; lia).
    simpl. by eexists. }
  destruct Hstep as [hydration ->].
  set (w4 := {| app := _; sockets := _; timers := _; now := _ |}).
  pose proof (fire_rest (now w) (drop k cmds.*2) k w4 Ht3 Hn3) as Hfire.
  destruct (run_timers w4) as [w5 out].
  destruct Hfire as (Hout & Happ & Ht5 & _).
  simpl in Hout, Happ. rewrite Hm3 in Hout.
  split; [done|]. split; [done|]. split; [exact Hout|].
  split; [rewrite Hout; apply words_received_fired|].
  split; [rewrite Hout; apply queue_counts_fired_empty|].
  split.
  { rewrite Hout, has_cleared_fired. unfold clears. apply bool_decide_eq_false_2. lia. }
  rewrite Happ. done.
Qed.

Lemma viewer_identify_mid_drain_witness :
  let cmds := [(1%nat, "1% About"); (1%nat, "2% Back")] in
  macUserSocketId (app initial_world) = None ∧ messageQueue (app initial_world) = [] ∧
  timers initial_world = [] ∧ (1 < length cmds)%nat ∧ "web" ≠ "macos" ∧
  let '(w4, hydration) := step (drain_started initial_world cmds 2 1) (Receive 3 (Identify "web")) in
  let '(w5, out) := run_timers w4 in
  words_received 2 out = [PStr "2% Back"] ∧ queue_counts out = [-2].
Proof.
  do 3 (split; [reflexivity|]). split; [simpl; lia|]. split; [discriminate|].
  pose proof (viewer_identify_mid_drain initial_world
                [(1%nat, "1% About"); (1%nat, "2% Back")] 2%nat 3%nat 1%nat "web"
                eq_refl eq_refl eq_refl ltac:(simpl; lia) ltac:(discriminate)) as H.
  cbv zeta in H.
  destruct (step _ (Receive 3 (Identify "web"))) as [w4 hydration].
  destruct (run_timers w4) as [w5 out].
  destruct H as (_ & _ & Hout & Hrecv & _). split; [exact Hrecv|].
  rewrite Hout. reflexivity.
Defined.

(** X4: a second device identification while the drain of a first one is
    pending (here before its first timer fires) schedules the whole queue
    once more.  The timers of both drains then deliver to the socket bound
    last: it receives every queued command twice, back to back, and the
    socket that identified first receives none of them. *)
Theorem second_identification_doubles_drain (w : World) (cmds : list (SocketId * string))
    (A B : SocketId) :
  macUserSocketId (app w) = None → messageQueue (app w) = [] → timers w = [] →
  let w1 := (run w (enqueue cmds)).1 in
  let w2 := (step w1 (Receive A (Identify "macos"))).1 in
  let '(w3, hydration) := step w2 (Receive B (Identify "macos")) in
  let '(w4, out) := run_timers w3 in
  macUserSocketId (app w3) = Some B ∧
  timers w3 = twice (drain_timers (now w) 0 (word_msg <$> cmds.*2)) ∧
  words_received B out = twice (PStr <$> cmds.*2) ∧
  (A ≠ B → words_received A out = []) ∧
  messageQueue (app w4) = [] ∧
  timers w4 = [].
Proof.
  intros Hmac Hqueue Htimers w1 w2.
  destruct (enqueue_run cmds w Hmac) as (Hq1 & Hm1 & Ht1 & Hn1 & Hs1).
  fold w1 in Hq1, Hm1, Ht1, Hn1, Hs1.
  rewrite Hqueue in Hq1. simpl in Hq1. rewrite Htimers in Ht1.
  assert (Hw2 : w2 = {| app := set_macUserSocketId (Some A) (app w1);
                        sockets := sockets w1;
                        timers := drain_timers (now w) 0 (word_msg <$> cmds.*2);
                        now := now w |}).
  { unfold w2. rewrite (identify_device w1 A Ht1). simpl. by rewrite Hq1, Hn1. }
  assert (Hstep : ∃ hydration, step w2 (Receive B (Identify "macos"))
            = ({| app := set_macUserSocketId (Some B) (app w1);
                  sockets := sockets w1;
                  timers := twice (drain_timers (now w) 0 (word_msg <$> cmds.*2));
                  now := now w |}, hydration)).
  { rewrite Hw2. handler_unfold. simpl. unfold messageQueue_length. simpl.
    rewrite Hq1.
    destruct (0 <? Z.of_nat (length (word_msg <$> cmds.*2))) eqn:Hlen; simpl.
    - unfold forEach. rewrite forEach_from_setTimeout. simpl.
      pose proof (perform_schedule_twice (now w) [] (word_msg <$> cmds.*2)) as Hp.
      simpl in Hp. rewrite Hq1, Hp. simpl. by eexists.
    - apply Z.ltb_ge in Hlen.
      destruct (word_msg <$> cmds.*2) as [|m q]; [|simpl in Hlen; lia].
      simpl. by eexists. }
  destruct Hstep as [hydration ->].
  set (w3 := {| app := _; sockets := _; timers := _; now := _ |}).
  pose proof (run_timers_log w3) as Hrun.
  destruct (run_timers w3) as [w4 out].
  destruct Hrun as (Hout & Hlen & _ & _ & Ht4 & _).
  simpl in Hout, Hlen. rewrite Hq1 in Hout, Hlen.
  destruct (twice_drain_timers_words (now w) 0 cmds.*2) as [Hwords Hdata].
  split; [done|]. split; [done|].
  split; [rewrite Hout, words_received_timers_log by exact Hwords; exact Hdata|].
  split; [intros Hne; rewrite Hout; by apply words_received_timers_log_other|].
  split; [|exact Ht4].
  rewrite length_fmap in Hlen.
  pose proof (timers_leave_twice (now w) 0 cmds.*2) as Hleave. simpl in Hleave.
  rewrite Hleave in Hlen.
  destruct (messageQueue (app w4)); [done|].
  destruct cmds.*2; simpl in Hlen; lia.
Qed.

Lemma second_identification_doubles_drain_witness :
  let cmds := [(1%nat, "1% About"); (1%nat, "2% Back")] in
  macUserSocketId (app initial_world) = None ∧ messageQueue (app initial_world) = [] ∧
  timers initial_world = [] ∧
  let w2 := (step (run initial_world (enqueue cmds)).1 (Receive 2 (Identify "macos"))).1 in
  let '(w3, hydration) := step w2 (Receive 3 (Identify "macos")) in
  let '(w4, out) := run_timers w3 in
  words_received 3 out = [PStr "1% About"; PStr "1% About"; PStr "2% Back"; PStr "2% Back"].
Proof.
  do 3 (split; [reflexivity|]).
  pose proof (second_identification_doubles_drain initial_world
                [(1%nat, "1% About"); (1%nat, "2% Back")] 2%nat 3%nat
                eq_refl eq_refl eq_refl) as H.
  cbv zeta in H |- *.
  destruct (step _ (Receive 3 (Identify "macos"))) as [w3 hydration].
  destruct (run_timers w3) as [w4 out].
  destruct H as (_ & _ & Hrecv & _). exact Hrecv.
Defined.

(** ** Queueing and settings *)

(** X5: while no device is bound, every text command is appended to the
    queue in arrival order, and each one is answered with a queue-depth
    status to all sockets carrying the new length: the depths count up by
    one from the length the queue had. *)
Theorem enqueue_announces_depth (w : World) (cmds : list (SocketId * string)) :
  macUserSocketId (app w) = None →
  let '(w', out) := run w (enqueue cmds) in
  messageQueue (app w') = messageQueue (app w) ++ (word_msg <$> cmds.*2) ∧
  out = imap (λ i _, (now w, emit_of ToAll "statusUpdate"
                               (queue_status "queued"
                                  (Some (Z.of_nat (length (messageQueue (app w)) + i + 1)))))) cmds ∧
  lastWord (app w') = default (lastWord (app w)) (last cmds.*2) ∧
  macUserSocketId (app w') = None.
Proof.
  revert w. induction cmds as [|[sender word] cmds IH]; intros w Hmac.
  - simpl. by rewrite app_nil_r.
  - change (enqueue ((sender, word) :: cmds))
      with (Receive sender (WordToMac word) :: enqueue cmds).
    cbn [run].
    assert (Hstep : step w (Receive sender (WordToMac word))
              = ({| app := set_messageQueue (messageQueue (app w) ++ [word_msg word])
                             (set_lastWord word (app w));
                    sockets := sockets w; timers := timers w; now := now w |},
                 [(now w, emit_of ToAll "statusUpdate"
                            (queue_status "queued"
                               (Some (Z.of_nat (length (messageQueue (app w)) + 0 + 1)))))])).
    { handler_unfold. unfold messageQueue_length, messageQueue_push. simpl.
      rewrite Hmac. simpl. rewrite length_app. simpl.
      unfold emit_of. repeat f_equal. lia. }
    rewrite Hstep.
    set (w1 := {| app := _; sockets := _; timers := _; now := _ |}).
    specialize (IH w1 Hmac).
    destruct (run w1 (enqueue cmds)) as [w' out].
    destruct IH as (Hq & Hout & Hlast & Hm).
    simpl in Hq, Hout, Hlast.
    split; [by rewrite Hq, <- app_assoc|].
    split.
    + rewrite Hout. simpl. f_equal. apply imap_ext. intros i x _. simpl.
      rewrite length_app. simpl.
      replace (length (messageQueue (app w)) + 1 + i + 1)%nat
        with (length (messageQueue (app w)) + S i + 1)%nat by lia.
      reflexivity.
    + split; [|exact Hm]. rewrite Hlast. rewrite fmap_cons. simpl.
      destruct (cmds.*2) as [|c cs] eqn:E; [done|].
      rewrite last_cons_cons.
      destruct (last (c :: cs)) eqn:El; [done|]. by apply last_None in El.
Qed.

Lemma enqueue_announces_depth_witness :
  macUserSocketId (app initial_world) = None ∧
  queue_counts (run initial_world (enqueue [(1%nat, "a"); (2%nat, "b"); (1%nat, "c")])).2
  = [1; 2; 3].
Proof.
  split; [reflexivity|].
  pose proof (enqueue_announces_depth initial_world
                [(1%nat, "a"); (2%nat, "b"); (1%nat, "c")] eq_refl) as H.
  destruct (run initial_world _) as [w' out].
  destruct H as (_ & -> & _). reflexivity.
Defined.

(** X6: a quality or frame-rate payload that starts with an integer
    numeral (after any white space, with an optional sign) is stored as
    that integer, whatever text follows the digits, and the parsed number,
    not the payload, is what goes to the device's room.  (The bound keeps
    the integer among those a JavaScript number holds exactly.) *)
Theorem settings_numeral_is_stored (w : World) (socket : SocketId)
    (ws : string) (s : Sign) (n : nat) (rest : string) :
  all_white_space ws = true → no_digit_ahead rest → Z.of_nat n ≤ 2 ^ 53 →
  let input := String.append ws (String.append (sign_text s) (String.append (decimal n) rest)) in
  let value := Num (sign_factor s * Z.of_nat n) in
  (let '(w', out) := step w (Receive socket (QualityChange input)) in
   app w' = set_lastQuality value (app w) ∧
   out = [(now w, emit_of (ToRoom (macUserSocketId (app w))) "qualityChange" (PNum value))]) ∧
  (let '(w', out) := step w (Receive socket (FrameRateChange input)) in
   app w' = set_lastFrameRate value (app w) ∧
   out = [(now w, emit_of (ToRoom (macUserSocketId (app w))) "frameRateChange" (PNum value))]).
Proof.
  intros Hws Hrest _ input value.
  pose proof (parseInt_numeral ws s n rest Hws Hrest) as Hparse.
  fold input in Hparse. fold value in Hparse.
  handler_unfold. simpl. rewrite Hparse. done.
Qed.

Lemma settings_numeral_is_stored_witness :
  all_white_space " " = true ∧ no_digit_ahead "px" ∧ Z.of_nat 50 ≤ 2 ^ 53 ∧
  lastQuality (app (step initial_world (Receive 1 (QualityChange " 50px"))).1) = Num 50.
Proof.
  split; [reflexivity|]. split; [reflexivity|]. split; [vm_compute; discriminate|].
  pose proof (settings_numeral_is_stored initial_world 1%nat " " NoSign 50 "px"
                eq_refl eq_refl ltac:(vm_compute; discriminate)) as [H _].
  cbv zeta in H.
  change (String.append " " (String.append (sign_text NoSign) (String.append (decimal 50) "px")))
    with " 50px" in H.
  destruct (step initial_world (Receive 1 (QualityChange " 50px"))) as [w' out].
  destruct H as [H _]. simpl. rewrite H. reflexivity.
Defined.

(** ** The earlier server *)

(** X7: the earlier server does not queue.  Text commands that arrive while
    no device is bound are answered with nothing at all; each only replaces
    the stored last word.  A device that identifies afterwards is sent one
    text command, the most recent one: the earlier ones are lost. *)
Theorem legacy_keeps_last_command_only (w : World) (cmds : list (SocketId * string))
    (device : SocketId) :
  macUserSocketId (app w) = None →
  let '(w1, out) := LegacyServer.run w (enqueue cmds) in
  out = [] ∧
  lastWord (app w1) = default (lastWord (app w)) (last cmds.*2) ∧
  words_received device (LegacyServer.step w1 (Receive device (Identify "macos"))).2
  = [PStr (default (lastWord (app w)) (last cmds.*2))].
Proof.
  revert w. induction cmds as [|[sender word] cmds IH]; intros w Hmac.
  - simpl. split; [done|]. split; [done|].
    legacy_unfold. simpl. unfold words_received. simpl.
    by rewrite bool_decide_eq_true_2.
  - change (enqueue ((sender, word) :: cmds))
      with (Receive sender (WordToMac word) :: enqueue cmds).
    cbn [LegacyServer.run].
    assert (Hstep : LegacyServer.step w (Receive sender (WordToMac word))
              = ({| app := set_lastWord word (app w); sockets := sockets w;
                    timers := timers w; now := now w |}, [])).
    { legacy_unfold. simpl. rewrite Hmac. done. }
    rewrite Hstep.
    set (w1 := {| app := _; sockets := _; timers := _; now := _ |}).
    specialize (IH w1 Hmac).
    destruct (LegacyServer.run w1 (enqueue cmds)) as [w2 out].
    destruct IH as (Hout & Hlast & Hrecv). simpl in Hlast, Hrecv.
    assert (Hd : default word (last cmds.*2)
                 = default (lastWord (app w)) (last ((sender, word) :: cmds).*2)).
    { rewrite fmap_cons. simpl. destruct (cmds.*2) as [|c cs]; [done|].
      rewrite last_cons_cons.
      destruct (last (c :: cs)) eqn:El; [done|]. by apply last_None in El. }
    rewrite <- Hd. subst out. done.
Qed.

Lemma legacy_keeps_last_command_only_witness :
  macUserSocketId (app initial_world) = None ∧
  let '(w1, out) := LegacyServer.run initial_world
                      (enqueue [(1%nat, "1% About"); (1%nat, "2% Back")]) in
  out = [] ∧
  words_received 2 (LegacyServer.step w1 (Receive 2 (Identify "macos"))).2 = [PStr "2% Back"].
Proof.
  split; [reflexivity|].
  pose proof (legacy_keeps_last_command_only initial_world
                [(1%nat, "1% About"); (1%nat, "2% Back")] 2%nat eq_refl) as H.
  destruct (LegacyServer.run initial_world _) as [w1 out].
  destruct H as (Hout & _ & Hrecv). split; [exact Hout|exact Hrecv].
Defined.

(** X8: the two servers keep the same record.  Run on the same turns from
    worlds that agree on the clipboard, glyph, last word, quality, frame
    rate, device binding and connected sockets, the server of index.js and
    the earlier server agree on all of them afterwards: queueing, the
    rendered-markup channel and the timers changed what is sent, not what is
    stored or which socket is the device. *)
Theorem servers_agree_on_record (trace : list Step) (w wl : World) :
  agree w wl → agree (run w trace).1 (LegacyServer.run wl trace).1.
Proof.
  revert w wl. induction trace as [|s trace IH]; intros w wl Hagree; [done|].
  simpl. pose proof (agree_step w wl s Hagree) as Hstep.
  destruct (step w s) as [w1 o1]. destruct (LegacyServer.step wl s) as [wl1 ol1].
  specialize (IH w1 wl1 Hstep).
  destruct (run w1 trace) as [w2 o2]. destruct (LegacyServer.run wl1 trace) as [wl2 ol2].
  exact IH.
Qed.

Lemma servers_agree_on_record_witness :
  let trace := [Connect 1; Receive 1 (Identify "macos"); Connect 2;
                Receive 2 (WordToMac "hello"); Receive 2 (QualityChange "40"); Close 1] in
  agree initial_world initial_world ∧
  agree (run initial_world trace).1 (LegacyServer.run initial_world trace).1.
Proof.
  split; [by repeat split|].
  exact (servers_agree_on_record _ initial_world initial_world ltac:(by repeat split)).
Defined.

(** ** The page of the earlier server: quality control *)

Section LegacyPageScripts.

Import LegacyPage.

(** What [qualitySlider.value] reads after the script assigns it a number.
    The element is a range input with bounds 1 and 100 (part_000, line
    168): for an integer within them that is its numeral. *)
Variable range_holds : JsNumber → string.

(** A range input keeps an integer within its bounds as its numeral. *)
Hypothesis range_holds_numeral :
  ∀ z, 1 ≤ z ≤ 100 → range_holds (Num z) = decimal (Z.to_nat z).

Lemma tick_auto (fps : JsNumber) (c f : nat) (p : Page) :
  isAutoMode p = true →
  qualitySlider_value p = decimal c → frameRateSlider_value p = decimal f →
  (1 ≤ c ≤ 100)%nat →
  ∃ q : nat,
    (1 ≤ q ≤ 100)%nat ∧
    Z.of_nat c - 5 ≤ Z.of_nat q ≤ Z.of_nat c + 2 ∧
    (q < c → js_lt fps (Num (Z.of_nat f - 5)) = true)%nat ∧
    (c < q → js_gt fps (Num (Z.of_nat f + 2)) = true)%nat ∧
    qualitySlider_value (tick range_holds fps p).1 = decimal q ∧
    frameRateSlider_value (tick range_holds fps p).1 = decimal f ∧
    isAutoMode (tick range_holds fps p).1 = true ∧
    qualitySlider_disabled (tick range_holds fps p).1 = qualitySlider_disabled p ∧
    frameRateSlider_disabled (tick range_holds fps p).1 = frameRateSlider_disabled p ∧
    (tick range_holds fps p).2 = (if bool_decide (q = c) then [] else [QualityChange (decimal q)]).
Proof.
  intros Hauto Hq Hf Hc. unfold tick. simpl. rewrite Hauto, Hq, Hf, !parseInt_decimal.
  unfold setQuality, Math_max, Math_min, Math_round, Number_toString, js_gt.
  destruct fps as [|x]; simpl;
    [|destruct (x <? Z.of_nat f - 5) eqn:Hlow; destruct (1 <? Z.of_nat c) eqn:H1;
      destruct (Z.of_nat f + 2 <? x) eqn:Hhigh; destruct (Z.of_nat c <? 100) eqn:H100; simpl].
  all: rewrite ?Z.eqb_refl; simpl.
  all: try (exists c; rewrite bool_decide_eq_true_2 by done;
            repeat split; (done || lia)).
  all: apply Z.ltb_lt in H1 || apply Z.ltb_lt in H100.
  all: try (replace (Z.of_nat c - 5 =? Z.of_nat c) with false
              by (symmetry; apply Z.eqb_neq; lia); simpl;
            exists (Z.to_nat (Z.max 1 (Z.min 100 (Z.of_nat c - 5))));
            replace (Z.max 1 (Z.min 100 (Z.of_nat c - 5)) <? 0) with false
              by (symmetry; apply Z.ltb_ge; lia);
            rewrite range_holds_numeral by lia;
            rewrite bool_decide_eq_false_2 by lia;
            repeat split; (done || lia)).
  all: replace (Z.of_nat c + 2 =? Z.of_nat c) with false
         by (symmetry; apply Z.eqb_neq; lia); simpl;
       exists (Z.to_nat (Z.max 1 (Z.min 100 (Z.of_nat c + 2))));
       replace (Z.max 1 (Z.min 100 (Z.of_nat c + 2)) <? 0) with false
         by (symmetry; apply Z.ltb_ge; lia);
       rewrite range_holds_numeral by lia;
       rewrite bool_decide_eq_false_2 by lia;
       repeat split; (done || lia).
Qed.

Lemma deliver_quality (socket : SocketId) (n : nat) (w : World) :
  lastQuality (app (deliver socket [QualityChange (decimal n)] w)) = Num (Z.of_nat n) ∧
  lastFrameRate (app (deliver socket [QualityChange (decimal n)] w)) = lastFrameRate (app w).
Proof.
  unfold deliver. simpl. legacy_unfold. simpl. rewrite parseInt_decimal.
  destruct (truthy _); simpl; split; reflexivity.
Qed.

Lemma deliver_frameRate (socket : SocketId) (n : nat) (w : World) :
  lastFrameRate (app (deliver socket [FrameRateChange (decimal n)] w)) = Num (Z.of_nat n) ∧
  lastQuality (app (deliver socket [FrameRateChange (decimal n)] w)) = lastQuality (app w).
Proof.
  unfold deliver. simpl. legacy_unfold. simpl. rewrite parseInt_decimal.
  destruct (truthy _); simpl; split; reflexivity.
Qed.

Lemma deliver_cons (socket : SocketId) (e : Inbound) (events : list Inbound) (w : World) :
  deliver socket (e :: events) w = deliver socket events (deliver socket [e] w).
Proof.
  unfold deliver. rewrite !fmap_cons, fmap_nil. cbn [LegacyServer.run].
  destruct (LegacyServer.step w (Receive socket e)) as [w1 out1]. cbn [fst].
  by destruct (LegacyServer.run w1 (Receive socket <$> events)).
Qed.

Lemma deliver_identify_web (socket : SocketId) (w : World) :
  lastQuality (app (deliver socket [Identify "web"] w)) = lastQuality (app w) ∧
  lastFrameRate (app (deliver socket [Identify "web"] w)) = lastFrameRate (app w).
Proof. unfold deliver. simpl. legacy_unfold. simpl. done. Qed.

Lemma deliver_connect (socket : SocketId) (c f : nat) (w : World) :
  lastQuality (app (deliver socket [Identify "web"; QualityChange (decimal c);
                                    FrameRateChange (decimal f)] w)) = Num (Z.of_nat c) ∧
  lastFrameRate (app (deliver socket [Identify "web"; QualityChange (decimal c);
                                      FrameRateChange (decimal f)] w)) = Num (Z.of_nat f).
Proof.
  rewrite deliver_cons, (deliver_cons _ (QualityChange _)).
  destruct (deliver_frameRate socket f
              (deliver socket [QualityChange (decimal c)] (deliver socket [Identify "web"] w)))
    as [-> ->].
  by destruct (deliver_quality socket c (deliver socket [Identify "web"] w)) as [-> _].
Qed.

Lemma act_keeps_sync (socket : SocketId) (a : Action) (p : Page) (w : World) :
  within_slider a → in_sync p w →
  in_sync (act range_holds a p).1 (deliver socket (act range_holds a p).2 w).
Proof.
  intros Hin (c & f & Hc & Hfr & Hq & Hf & Hsq & Hsf).
  destruct a as [|fps| |position|position]; simpl.
  - exists c, f. rewrite Hq, Hf. by destruct (deliver_connect socket c f w) as [-> ->].
  - destruct (isAutoMode p) eqn:Hauto.
    + destruct (tick_auto fps c f p Hauto Hq Hf Hc)
        as (q & Hrange & _ & _ & _ & Hq' & Hf' & _ & _ & _ & Hout).
      exists q, f. rewrite Hout. do 4 (split; [done|]).
      case_bool_decide as Hsame.
      * subst q. done.
      * destruct (deliver_quality socket q w) as [-> ->]. done.
    + unfold tick. simpl. rewrite Hauto. simpl. by exists c, f.
  - by exists c, f.
  - destruct (qualitySlider_disabled p); simpl; [by exists c, f|].
    exists position, f. simpl in Hin.
    assert (Hshown : qualitySlider_value
              (on_quality_input (set_qualitySlider_value (decimal position) p))
            = decimal position)
      by (unfold on_quality_input; simpl; by destruct (isAutoMode p)).
    rewrite Hshown. destruct (deliver_quality socket position w) as [-> ->].
    unfold on_quality_input. simpl. by destruct (isAutoMode p).
  - destruct (frameRateSlider_disabled p); simpl; [by exists c, f|].
    exists c, position. simpl in Hin.
    assert (Hshown : frameRateSlider_value
              (on_frameRate_input (set_frameRateSlider_value (decimal position) p))
            = decimal position)
      by (unfold on_frameRate_input; simpl; by destruct (isAutoMode p)).
    rewrite Hshown. destruct (deliver_frameRate socket position w) as [-> ->].
    unfold on_frameRate_input. simpl. by destruct (isAutoMode p).
Qed.

(** X10: the page and the earlier server stay in step on the quality.  The
    page connects with its sliders at positions of theirs; after any
    sequence of ticks (with whatever rate was measured), clicks on the auto
    button and slides, every event being delivered to the server as it is
    emitted, the quality slider still shows a position between 1 and 100
    and the server's stored quality and frame rate are exactly what the two
    sliders show. *)
Theorem page_and_server_stay_in_step (socket : SocketId) (actions : list Action)
    (c f : nat) (p : Page) (w : World) :
  (1 ≤ c ≤ 100)%nat → (1 ≤ f ≤ 30)%nat →
  qualitySlider_value p = decimal c → frameRateSlider_value p = decimal f →
  Forall within_slider actions →
  let '(p', w') := session range_holds socket (Connected :: actions) p w in
  in_sync p' w'.
Proof.
  intros Hc Hfr Hq Hf Hall.
  assert (Hstart : in_sync (act range_holds Connected p).1 (deliver socket (act range_holds Connected p).2 w)).
  { simpl. exists c, f. rewrite Hq, Hf.
    by destruct (deliver_connect socket c f w) as [-> ->]. }
  change (session range_holds socket (Connected :: actions) p w)
    with (session range_holds socket actions (act range_holds Connected p).1 (deliver socket (act range_holds Connected p).2 w)).
  revert Hstart. generalize (act range_holds Connected p).1 (deliver socket (act range_holds Connected p).2 w).
  induction Hall as [|a rest Ha _ IH]; intros p0 w0 Hsync; [exact Hsync|].
  simpl. pose proof (act_keeps_sync socket a p0 w0 Ha Hsync) as Hnext.
  destruct (act range_holds a p0) as [p1 events]. simpl in Hnext. by apply IH.
Qed.

(** X9: one tick in auto mode, with the sliders at positions [c] (between 1
    and 100) and [f].  The quality slider ends at a position [q] between 1
    and 100 that is at most 5 below and at most 2 above [c]; it goes down
    only when the measured rate is more than 5 below [f] and up only when
    the rate is more than 2 above [f]; one quality change, carrying [q], is
    emitted when [q] differs from [c] and nothing otherwise. *)
Theorem auto_tick_adjusts_within_bounds (fps : JsNumber) (c f : nat) (p : Page) :
  isAutoMode p = true →
  qualitySlider_value p = decimal c → frameRateSlider_value p = decimal f →
  (1 ≤ c ≤ 100)%nat →
  ∃ q : nat,
    (1 ≤ q ≤ 100)%nat ∧
    Z.of_nat c - 5 ≤ Z.of_nat q ≤ Z.of_nat c + 2 ∧
    (q < c → js_lt fps (Num (Z.of_nat f - 5)) = true)%nat ∧
    (c < q → js_gt fps (Num (Z.of_nat f + 2)) = true)%nat ∧
    qualitySlider_value (tick range_holds fps p).1 = decimal q ∧
    (tick range_holds fps p).2 = (if bool_decide (q = c) then [] else [QualityChange (decimal q)]).
Proof.
  intros Hauto Hq Hf Hc.
  destruct (tick_auto fps c f p Hauto Hq Hf Hc)
    as (q & H1 & H2 & H3 & H4 & H5 & _ & _ & _ & _ & H6).
  exists q. done.
Qed.

Lemma act_locked (a : Action) (p : Page) :
  locked p →
  locked (act range_holds a p).1 ∧
  isAutoMode (act range_holds a p).1 = (if is_click a then negb (isAutoMode p) else isAutoMode p).
Proof.
  unfold locked. intros (Hq & Hf & Hb).
  destruct a as [|fps| |position|position]; simpl.
  - done.
  - unfold tick, setQuality. simpl.
    destruct (isAutoMode p) eqn:Hauto; simpl; [|by rewrite Hauto].
    destruct (js_strict_ne _ _); simpl; by rewrite Hauto.
  - done.
  - destruct (qualitySlider_disabled p) eqn:Hd; simpl; [intuition congruence|].
    unfold on_quality_input. simpl. rewrite <- Hq. simpl. intuition congruence.
  - destruct (frameRateSlider_disabled p) eqn:Hd; simpl; [intuition congruence|].
    unfold on_frameRate_input. simpl. rewrite <- Hf. simpl. intuition congruence.
Qed.

(** X11: auto mode is switched by the button only.  On a page whose sliders
    are disabled and whose button is lit exactly in auto mode (as on the
    loaded page), this stays so after any sequence of connects, ticks,
    clicks and slides, and auto mode is on or off by the parity of the
    clicks on the button alone: the branch of the slider listeners that
    leaves auto mode is never taken, since a disabled slider cannot be
    slid. *)
Theorem auto_mode_switched_by_button_only (socket : SocketId) (actions : list Action)
    (p : Page) (w : World) :
  locked p →
  locked (session range_holds socket actions p w).1 ∧
  isAutoMode (session range_holds socket actions p w).1 = xorb (isAutoMode p) (Nat.odd (clicks actions)).
Proof.
  revert p w. induction actions as [|a rest IH]; intros p w Hp.
  - simpl. by rewrite xorb_false_r.
  - simpl. destruct (act_locked a p Hp) as [Hlocked Hmode].
    destruct (act range_holds a p) as [p1 events]. simpl in Hlocked, Hmode.
    destruct (IH p1 (deliver socket events w) Hlocked) as [Hl Hm].
    split; [done|]. rewrite Hm, Hmode.
    destruct (is_click a); simpl; [|done].
    rewrite Nat.odd_succ, <- Nat.negb_odd. by destruct (isAutoMode p), (Nat.odd _).
Qed.

End LegacyPageScripts.

(** A slider that keeps the numeral of whatever number it is given is one
    such range input. *)
Lemma Number_toString_numeral (z : Z) :
  1 ≤ z ≤ 100 → Number_toString (Num z) = decimal (Z.to_nat z).
Proof.
  intros Hz. unfold Number_toString.
  destruct (z <? 0) eqn:Hneg; [apply Z.ltb_lt in Hneg; lia|done].
Qed.

Lemma auto_tick_adjusts_within_bounds_witness :
  LegacyPage.isAutoMode (LegacyPage.on_auto_click LegacyPage.initial_page) = true ∧
  ∃ q : nat,
    (1 ≤ q ≤ 100)%nat ∧
    71 - 1 ≤ Z.of_nat q ≤ 75 + 2 ∧
    LegacyPage.qualitySlider_value (LegacyPage.tick Number_toString (Num 3) (LegacyPage.on_auto_click LegacyPage.initial_page)).1
    = decimal q.
Proof.
  split; [reflexivity|].
  destruct (auto_tick_adjusts_within_bounds Number_toString Number_toString_numeral
              (Num 3) 75 10 (LegacyPage.on_auto_click LegacyPage.initial_page))
    as (q & Hq & Hnear & _ & _ & Hshown & _); [reflexivity|reflexivity|reflexivity|lia|].
  exists q. split; [exact Hq|]. split; [lia|exact Hshown].
Defined.

Lemma page_and_server_stay_in_step_witness :
  let '(p, w) :=
    LegacyPage.session Number_toString 1
      [LegacyPage.Connected; LegacyPage.ClickAuto; LegacyPage.Tick (Num 3); LegacyPage.ClickAuto; LegacyPage.SlideFrameRate 20; LegacyPage.SlideQuality 40]
      LegacyPage.initial_page LegacyServer.initial_world in
  LegacyPage.in_sync p w.
Proof.
  apply (page_and_server_stay_in_step Number_toString Number_toString_numeral 1
           [LegacyPage.ClickAuto; LegacyPage.Tick (Num 3); LegacyPage.ClickAuto; LegacyPage.SlideFrameRate 20; LegacyPage.SlideQuality 40]
           75 10 LegacyPage.initial_page LegacyServer.initial_world);
    [lia|lia|reflexivity|reflexivity|].
  repeat constructor; simpl; lia.
Defined.

Lemma auto_mode_switched_by_button_only_witness :
  LegacyPage.isAutoMode
    (LegacyPage.session Number_toString 1 [LegacyPage.ClickAuto; LegacyPage.Tick (Num 3); LegacyPage.SlideQuality 40]
       LegacyPage.initial_page LegacyServer.initial_world).1 = true.
Proof.
  destruct (auto_mode_switched_by_button_only Number_toString 1
              [LegacyPage.ClickAuto; LegacyPage.Tick (Num 3); LegacyPage.SlideQuality 40]
              LegacyPage.initial_page LegacyServer.initial_world) as [_ Hmode].
  - by repeat split.
  - rewrite Hmode. reflexivity.
Defined.

(** ** The viewer page: queue badge and command panel *)



(** X13: the queue badge during a drain.  Commands are queued with no
    device bound and no drain in flight, and the device identifies: the
    connected status hides the badge of every viewer.  Each timer of the
    drain that fires before the last shows the badge again, with the number
    of commands still to come; the last timer hides it. *)
Theorem queue_badge_counts_down (w : World) (cmds : list (SocketId * string))
    (device viewer : SocketId) (k : nat) (p : ViewerPage.Page) :
  macUserSocketId (app w) = None → messageQueue (app w) = [] → timers w = [] →
  (1 ≤ k ≤ length cmds)%nat →
  let '(w1, out1) := run w (enqueue cmds) in
  let '(w2, out2) := step w1 (Receive device (Identify "macos")) in
  let '(w3, out3) := run w2 (replicate k FireTimer) in
  let p2 := ViewerPage.watch viewer out2 (ViewerPage.watch viewer out1 p) in
  let p3 := ViewerPage.watch viewer out3 p2 in
  ViewerPage.queueStatus_hidden p2 = true ∧
  if bool_decide (k = length cmds)
  then ViewerPage.queueStatus_hidden p3 = true
  else ViewerPage.badge_shows (length cmds - k) p3.
Proof.
  intros Hmac Hqueue Htimers Hk.
  destruct (enqueue_run cmds w Hmac) as (Hq1 & Hm1 & Ht1 & Hn1 & Hs1).
  rewrite Hqueue in Hq1. simpl in Hq1. rewrite Htimers in Ht1.
  destruct (run w (enqueue cmds)) as [w1 out1]. simpl in Hq1, Hm1, Ht1, Hn1, Hs1.
  rewrite (identify_device w1 device Ht1). rewrite Hq1, Hn1.
  set (w2 := {| app := _; sockets := _; timers := _; now := _ |}).
  pose proof (fire_prefix (now w) (take k cmds.*2) (drop k cmds.*2) 0 w2) as Hfire.
  rewrite take_drop, length_take, Nat.min_l in Hfire by (rewrite length_fmap; lia).
  specialize (Hfire eq_refl ltac:(simpl; lia)).
  destruct (run w2 (replicate k FireTimer)) as [w3 out3].
  destruct Hfire as (Hout & _). simpl in Hout. rewrite Hq1, !length_fmap in Hout.
  cbv zeta. split; [reflexivity|].
  pose proof (watch_fired viewer (now w) (Some device) (length cmds) 0
                (take k cmds.*2)
                (ViewerPage.watch viewer
                   [(now w, emit_of ToAll "statusUpdate" (mac_status "connected"));
                    (now w, emit_of (ToSocket device) "wordToMac" (PStr (lastWord (app w1))));
                    (now w, emit_of (ToSocket device) "qualityChange"
                              (PNum (lastQuality (app w1))));
                    (now w, emit_of (ToSocket device) "frameRateChange"
                              (PNum (lastFrameRate (app w1))))]
                   (ViewerPage.watch viewer out1 p))) as Hshown.
  rewrite length_take, Nat.min_l in Hshown by (rewrite length_fmap; lia).
  rewrite Nat.add_0_l, Nat.sub_0_r in Hshown. rewrite Hout.
  apply Hshown; [|lia].
  destruct cmds as [|c cmds]; [simpl in Hk; lia|].
  destruct k; [lia|done].
Qed.

Lemma queue_badge_counts_down_witness :
  let cmds := [(1%nat, "1% About"); (1%nat, "2% Back"); (1%nat, "3% Next")] in
  let '(w1, out1) := run initial_world (enqueue cmds) in
  let '(w2, out2) := step w1 (Receive 2 (Identify "macos")) in
  let '(w3, out3) := run w2 (replicate 1 FireTimer) in
  ViewerPage.queueStatus_textContent
    (ViewerPage.watch 1 out3
       (ViewerPage.watch 1 out2 (ViewerPage.watch 1 out1 ViewerPage.initial_page)))
  = "(2 Queued)".
Proof.
  pose proof (queue_badge_counts_down initial_world
                [(1%nat, "1% About"); (1%nat, "2% Back"); (1%nat, "3% Next")] 2%nat 1%nat 1%nat
                ViewerPage.initial_page eq_refl eq_refl eq_refl ltac:(simpl; lia)) as H.
  cbv zeta.
  destruct (run initial_world _) as [w1 out1].
  destruct (step w1 _) as [w2 out2].
  destruct (run w2 _) as [w3 out3].
  destruct H as (_ & _ & Htext). rewrite Htext. reflexivity.
Defined.

Section CommandPanelCommands.

Import CommandPanel.











End CommandPanelCommands.
